(** * Clair V4 security scanner model: a shallow embedding

    This development embeds [data/secscan_model/secscan_v4_model.py] and
    states its behaviour as theorems:

    - the report normalizer [features_for] (pure, may raise [KeyError] or
      [IndexError]);
    - the scanner [V4SecurityScanner]: [load_security_information],
      [_get_manifest_iterator], [perform_indexing],
      [perform_indexing_recent_manifests], the pipeline [_index] and
      [lookup_notification_page], over an explicit world (the status table,
      the per-window abort flags, the log) and the answers of the
      collaborators (remote engine, registry, clock, configuration).

    Python dictionaries that are only looked up are [gmap]s; dictionaries
    whose iteration order is observable are association lists. *)

From Stdlib Require Import ZArith QArith.
From stdpp Require Import base option list strings gmap.

Local Open Scope Z_scope.

#[local] Set Warnings "-clear-no-such-hyp".

(** ** Exceptions and results *)

Inductive exn : Type :=
| KeyError (key : string)
| IndexError
| TypeError
| OverflowError
| DatabaseError.

Inductive Result (A : Type) : Type :=
| Ok (a : A)
| Raise (e : exn).
Arguments Ok {A} a.
Arguments Raise {A} e.

#[global] Instance Result_ret : MRet Result := fun A a => Ok a.
#[global] Instance Result_bind : MBind Result := fun A B f m =>
  match m with
  | Ok a => f a
  | Raise e => Raise e
  end.
#[global] Instance Result_fmap : FMap Result := fun A B f m =>
  match m with
  | Ok a => Ok (f a)
  | Raise e => Raise e
  end.

(** ** The remote vulnerability report (the JSON the engine returns) *)

Record Package := { pkg_name : string; pkg_version : string }.

Record Environment := { introduced_in : string }.

Record RepositoryJson := { repo_name : option string; repo_uri : option string }.

Record DistributionJson := { dist_name : option string; dist_version : option string }.

(** A vulnerability stanza. Keys read with [vuln["k"]] are fields; keys
    read with [.get] are options. [name] is read both ways. *)
Record VulnerabilityJson := {
  vuln_id : string;
  vuln_name : option string;
  updater : string;
  links : string;
  fixed_in_version : string;
  description : string;
  normalized_severity : string;
  repository : option RepositoryJson;
  distribution : option DistributionJson;
}.

Record EnrichmentEntry := { baseScore : Q; vectorString : option string }.

Record VulnerabilityReport := {
  manifest_hash : string;
  packages : list (string * Package);
  environments : gmap string (list Environment);
  package_vulnerabilities : gmap string (list string);
  vulnerabilities : gmap string VulnerabilityJson;
  enrichments : option (list (string * list (gmap string (list EnrichmentEntry))));
}.

(** ** The normalized schema ([data.secscan_model.datatypes]) *)

Record CVSSv3 := { Vectors : string; Score : option Q }.

Record NVD := { nvd_CVSSv3 : CVSSv3 }.

Record Metadata := {
  UpdatedBy : string;
  RepoName : option string;
  RepoLink : option string;
  DistroName : option string;
  DistroVersion : option string;
  meta_NVD : NVD;
}.

Record Vulnerability := {
  Severity : string;
  NamespaceName : string;
  Link : string;
  FixedBy : string;
  Description : string;
  Name : string;
  vuln_Metadata : Metadata;
}.

Record Feature := {
  feat_Name : string;
  feat_VersionFormat : string;
  feat_NamespaceName : string;
  feat_AddedBy : string;
  feat_Version : string;
  feat_Vulnerabilities : list Vulnerability;
}.

Record Layer := {
  layer_Name : string;
  layer_ParentName : string;
  layer_NamespaceName : string;
  layer_IndexedByVersion : Z;
  layer_Features : list Feature;
}.

Record SecurityInformation := { si_Layer : Layer }.

(** ** [features_for] *)

(** [sorted(val, key=lambda x: x["baseScore"], reverse=True)]: Python's sort
    is stable, also with [reverse=True]: entries of equal score keep their
    original order. *)
Definition insert_by_score (x : EnrichmentEntry) : list EnrichmentEntry → list EnrichmentEntry :=
  fix go (l : list EnrichmentEntry) : list EnrichmentEntry :=
    match l with
    | [] => [x]
    | y :: l' =>
        if Qle_bool (baseScore y) (baseScore x) then x :: y :: l' else y :: go l'
    end.

Definition sorted_by_score_reverse (val : list EnrichmentEntry) : list EnrichmentEntry :=
  foldr insert_by_score [] val.

(** The dictionary comprehension of lines 466-473. *)
Definition enrichments_for (report : VulnerabilityReport)
  : Result (gmap string EnrichmentEntry) :=
  match enrichments report with
  | None | Some [] => Ok ∅
  | Some ((_, docs) :: _) =>
      match docs with
      | [] => Raise IndexError
      | doc :: _ =>
          if decide (map_Forall (λ _ val, val ≠ []) doc)
          then Ok (omap (λ val, head (sorted_by_score_reverse val)) doc)
          else Raise IndexError
      end
  end.

Definition vuln_key (pkg : Package) (vuln : VulnerabilityJson) : string :=
  pkg_name pkg +:+ "_" +:+ pkg_version pkg +:+ "_" +:+ default "" (vuln_name vuln).

(** The inner loop of lines 454-464; [dedupe_vulns] outlives the package. *)
Fixpoint collect_pkg_vulns (report : VulnerabilityReport) (pkg : Package)
    (ids : list string) (dedupe_vulns : gmap string bool)
    (pkg_vulns : list VulnerabilityJson)
  : Result (list VulnerabilityJson * gmap string bool) :=
  match ids with
  | [] => Ok (pkg_vulns, dedupe_vulns)
  | id :: ids' =>
      match vulnerabilities report !! id with
      | None => Raise (KeyError id)
      | Some vuln =>
          let key := vuln_key pkg vuln in
          collect_pkg_vulns report pkg ids' (<[key := true]> dedupe_vulns)
            (if default false (dedupe_vulns !! key) then pkg_vulns
             else pkg_vulns ++ [vuln])
      end
  end.

Definition pkg_env_for (report : VulnerabilityReport) (pkg_id : string)
  : Result Environment :=
  match environments report !! pkg_id with
  | None => Raise (KeyError pkg_id)
  | Some [] => Raise IndexError
  | Some (env :: _) => Ok env
  end.

Section Normalizer.

(** [util.secscan.fetch_vuln_severity], a collaborator. *)
Variable fetch_vuln_severity :
  VulnerabilityJson → gmap string EnrichmentEntry → string.

Definition to_vulnerability (enr : gmap string EnrichmentEntry)
    (vuln : VulnerabilityJson) : Result Vulnerability :=
  match vuln_name vuln with
  | None => Raise (KeyError "name")
  | Some name =>
      Ok {| Severity := fetch_vuln_severity vuln enr;
            NamespaceName := updater vuln;
            Link := links vuln;
            FixedBy := if String.eqb (fixed_in_version vuln) "0" then ""
                       else fixed_in_version vuln;
            Description := description vuln;
            Name := name;
            vuln_Metadata :=
              {| UpdatedBy := updater vuln;
                 RepoName := repository vuln ≫= repo_name;
                 RepoLink := repository vuln ≫= repo_uri;
                 DistroName := distribution vuln ≫= dist_name;
                 DistroVersion := distribution vuln ≫= dist_version;
                 meta_NVD :=
                   {| nvd_CVSSv3 :=
                        {| Vectors :=
                             default "" (enr !! vuln_id vuln ≫= vectorString);
                           Score := baseScore <$> enr !! vuln_id vuln |} |} |} |}
  end.

Fixpoint features_loop (report : VulnerabilityReport)
    (pkgs : list (string * Package)) (dedupe_vulns : gmap string bool)
    (features : list Feature) : Result (list Feature) :=
  match pkgs with
  | [] => Ok features
  | (pkg_id, pkg) :: pkgs' =>
      pkg_env ← pkg_env_for report pkg_id;
      '(pkg_vulns, dedupe_vulns') ←
        collect_pkg_vulns report pkg
          (default [] (package_vulnerabilities report !! pkg_id)) dedupe_vulns [];
      enr ← enrichments_for report;
      vulns ← mapM (to_vulnerability enr) pkg_vulns;
      features_loop report pkgs' dedupe_vulns'
        (features ++ [{| feat_Name := pkg_name pkg;
                         feat_VersionFormat := "";
                         feat_NamespaceName := "";
                         feat_AddedBy := introduced_in pkg_env;
                         feat_Version := pkg_version pkg;
                         feat_Vulnerabilities := vulns |}])
  end.

Definition features_for (report : VulnerabilityReport) : Result (list Feature) :=
  features_loop report (packages report) ∅ [].

End Normalizer.

(** ** The status table and the candidates *)

Inductive IndexStatus : Type :=
| MANIFEST_UNSUPPORTED
| FAILED
| IN_PROGRESS
| COMPLETED.

Inductive IndexerVersion : Type := V4.

(** A row of [ManifestSecurityStatus] ([metadata_json] is always [{}]). *)
Record ManifestSecurityStatus := {
  mss_manifest : Z;
  mss_repository : Z;
  index_status : IndexStatus;
  indexer_hash : string;
  indexer_version : IndexerVersion;
  last_indexed : Z;
  error_json : option string;
}.

(** A [Manifest] row as a query yields it: [manifestsecuritystatus] is the
    joined status row, absent when the join found none. *)
Record Manifest := {
  manifest_id : Z;
  manifest_repository : Z;
  manifest_digest : string;
  is_manifest_list : bool;
  manifestsecuritystatus : option ManifestSecurityStatus;
}.

(** What the batch sampler yields: the candidate, the abort event of its
    window (named by a number) and the count of rows left in the window. *)
Definition Item : Type := Manifest * nat * nat.

Inductive Query : Type :=
| not_indexed_query
| index_error_query (reindex_threshold : option Z)
| needs_reindexing_query (indexer_hash : string) (reindex_threshold : option Z).

Record ScanToken := { min_id : Z }.

(** ** The remote engine's answers *)

Inductive ApiResult (A : Type) : Type :=
| ApiOk (a : A)
| APIRequestFailure (msg : string).
Arguments ApiOk {A} a.
Arguments APIRequestFailure {A} msg.

Record IndexerState := { state : option string }.

Record IndexReport := { report_state : string; report_err : option string }.

Inductive IndexOutcome : Type :=
| Indexed (report : IndexReport) (state : string)
| InvalidContentSent
| IndexRequestFailure.

Definition Index_Finished : string := "IndexFinished".
Definition Index_Error : string := "IndexError".

Record NotificationJson := { reason : string; notified_manifest : string }.

Record PageJson := { next : option string }.

Record NotificationPageJson := {
  notifications : option (list NotificationJson);
  page : option PageJson;
}.

Inductive PaginatedNotificationStatus : Type :=
| SUCCESS
| RETRYABLE_ERROR
| FATAL_ERROR.

Record PaginatedNotificationResult := {
  pn_status : PaginatedNotificationStatus;
  pn_data : option (list NotificationJson);
  pn_next_page_index : option string;
}.

Inductive ScanLookupStatus : Type :=
| NOT_YET_INDEXED
| FAILED_TO_INDEX
| UNSUPPORTED_FOR_INDEXING.

(** [SecurityInformationLookupResult], by the factory that builds it. *)
Inductive SecurityInformationLookupResult : Type :=
| with_status (s : ScanLookupStatus)
| for_request_error (msg : string)
| for_data (info : SecurityInformation).

Inductive ManifestOrLegacyImage : Type :=
| ManifestDataType (m : Manifest)
| LegacyImage.

(** ** The collaborators of one scanner run *)

Record Collaborators := {
  secscan_state : ApiResult IndexerState;
  secscan_index : Manifest → list string → IndexOutcome;
  secscan_vulnerability_report : string → ApiResult (option VulnerabilityReport);
  secscan_retrieve_notification_page :
    string → option string → ApiResult (option NotificationPageJson);
  list_manifest_layers : Manifest → option (list string);
  fetch_vuln_severity : VulnerabilityJson → gmap string EnrichmentEntry → string;
  (** the identifiers in the [Manifest] table *)
  manifest_ids : list Z;
  (** whether the transaction on the status of this manifest commits *)
  db_commits : Z → bool;
  utcnow : Z;
  SECURITY_SCANNER_V4_BATCH_SIZE : option Z;
  SECURITY_SCANNER_V4_REINDEX_THRESHOLD : option Z;
  (** [util.migrate.allocator.yield_random_entries], as the sequence it
      ends up yielding in this run for a query, a batch size, [max_id] and
      [min_id] (the generator is lazy and reads the abort events) *)
  yield_random_entries : Query → Z → Z → Z → list Item;
  (** [int(4 ** log10(n))] in the interpreter's double arithmetic *)
  int_pow4_log10 : Z → Z;
}.

(** ** The world the scanner changes *)

Inductive LogEntry : Type :=
| warning_no_layers (manifest : Z)
| debug_preempted
| debug_indexing (manifest : Z)
| exception_invalid_content
| exception_api_error.

Record World := {
  status_table : list ManifestSecurityStatus;
  abort_flags : gset nat;
  log : list LogEntry;
}.

Definition M (A : Type) : Type := World → Result A * World.

#[global] Instance M_ret : MRet M := fun A a w => (Ok a, w).
#[global] Instance M_bind : MBind M := fun A B f m w =>
  match m w with
  | (Ok a, w') => f a w'
  | (Raise e, w') => (Raise e, w')
  end.

Definition raise {A : Type} (e : exn) : M A := fun w => (Raise e, w).

Definition lift {A : Type} (r : Result A) : M A := fun w => (r, w).

Definition get_table : M (list ManifestSecurityStatus) :=
  fun w => (Ok (status_table w), w).

Definition logger (e : LogEntry) : M unit := fun w =>
  (Ok tt, {| status_table := status_table w;
             abort_flags := abort_flags w;
             log := log w ++ [e] |}).

(** [abt.set()] *)
Definition abt_set (abt : nat) : M unit := fun w =>
  (Ok tt, {| status_table := status_table w;
             abort_flags := {[abt]} ∪ abort_flags w;
             log := log w |}).

Definition scalar_max (ids : list Z) : option Z :=
  match ids with
  | [] => None
  | x :: l => Some (foldr Z.max x l)
  end.

Definition scalar_min (ids : list Z) : option Z :=
  match ids with
  | [] => None
  | x :: l => Some (foldr Z.min x l)
  end.

(** Points in time are seconds from 1970-01-01, durations are seconds.
    [timedelta(seconds=n)] raises [OverflowError] when its day count,
    [n // 86400], exceeds 999999999 in magnitude. *)
Definition timedelta (seconds : Z) : Result Z :=
  if 999999999 <? Z.abs (seconds `div` 86400) then Raise OverflowError
  else Ok seconds.

(** [datetime.min] (year 1) and [datetime.max] (the end of year 9999). *)
Definition datetime_min : Z := -62135596800.
Definition datetime_max : Z := 253402300799.

(** [t - delta] on a [datetime]: [OverflowError] outside the years 1 to
    9999. *)
Definition datetime_sub (t delta : Z) : Result Z :=
  if (t - delta <? datetime_min) || (datetime_max <? t - delta)
  then Raise OverflowError
  else Ok (t - delta).

(** [if not batch_size]: [None] and [0] are falsy. *)
Definition truthy (batch_size : option Z) : bool :=
  match batch_size with
  | None => false
  | Some n => negb (n =? 0)
  end.

(** ** [V4SecurityScanner] *)

Section V4SecurityScanner.

Variable env : Collaborators.

(** [with db_transaction(): ...]: the body's writes are committed
    together, or the transaction fails and leaves the table as it was. *)
Definition db_transaction (manifest : Z)
    (body : list ManifestSecurityStatus → list ManifestSecurityStatus) : M unit :=
  fun w =>
    if db_commits env manifest
    then (Ok tt, {| status_table := body (status_table w);
                    abort_flags := abort_flags w;
                    log := log w |})
    else (Raise DatabaseError, w).

(** [last_indexed] takes the column's default, the time of the write. *)
Definition mark_manifest_unsupported (manifest : Manifest) : M unit :=
  db_transaction (manifest_id manifest) (fun table =>
    filter (λ row, ¬ (mss_manifest row = manifest_id manifest
                      ∧ mss_repository row = manifest_repository manifest)) table
    ++ [{| mss_manifest := manifest_id manifest;
           mss_repository := manifest_repository manifest;
           index_status := MANIFEST_UNSUPPORTED;
           indexer_hash := "none";
           indexer_version := V4;
           last_indexed := utcnow env;
           error_json := None |}]).

(** [manifest_candidate.manifestsecuritystatus_set]: a fresh query. *)
Definition manifestsecuritystatus_set (candidate : Manifest)
    (table : list ManifestSecurityStatus) : list ManifestSecurityStatus :=
  filter (λ row, mss_manifest row = manifest_id candidate) table.

Definition should_skip_indexing (reindex_threshold : Z) (candidate : Manifest)
  : M bool :=
  match manifestsecuritystatus candidate with
  | Some status => mret (last_indexed status >=? reindex_threshold)
  | None =>
      table ← get_table;
      mret (0 <? Z.of_nat (length (manifestsecuritystatus_set candidate table)))
  end.

Definition save_status (candidate : Manifest) (report : IndexReport)
    (state : string) (status : IndexStatus) : M unit :=
  db_transaction (manifest_id candidate) (fun table =>
    filter (λ row, mss_manifest row ≠ manifest_id candidate) table
    ++ [{| mss_manifest := manifest_id candidate;
           mss_repository := manifest_repository candidate;
           index_status := status;
           indexer_hash := state;
           indexer_version := V4;
           last_indexed := utcnow env;
           error_json := report_err report |}]).

(** The body of the [for] loop of [_index]; returning is [continue]. *)
Definition index_candidate (reindex_threshold : Z) (item : Item) : M unit :=
  let '(candidate, abt, num_remaining) := item in
  if is_manifest_list candidate then mark_manifest_unsupported candidate
  else
    match list_manifest_layers env candidate with
    | None | Some [] =>
        logger (warning_no_layers (manifest_id candidate));;
        mark_manifest_unsupported candidate
    | Some layers =>
        skip ← should_skip_indexing reindex_threshold candidate;
        if skip : bool then
          logger debug_preempted;;
          abt_set abt
        else
          logger (debug_indexing (manifest_id candidate));;
          match secscan_index env candidate layers with
          | InvalidContentSent =>
              mark_manifest_unsupported candidate;;
              logger exception_invalid_content
          | IndexRequestFailure => logger exception_api_error
          | Indexed report state =>
              if String.eqb (report_state report) Index_Finished
              then save_status candidate report state COMPLETED
              else if String.eqb (report_state report) Index_Error
              then save_status candidate report state FAILED
              else mret tt
          end
    end.

Fixpoint _index (iterator : list Item) (reindex_threshold : Z) : M unit :=
  match iterator with
  | [] => mret tt
  | item :: iterator' =>
      index_candidate reindex_threshold item;;
      _index iterator' reindex_threshold
  end.

Definition _get_manifest_iterator (indexer_state : IndexerState)
    (min_id max_id : Z) (batch_size : option Z) (reindex_threshold : option Z)
  : list Item :=
  let batch_size :=
    if truthy batch_size then default 0 batch_size
    else int_pow4_log10 env (Z.max 10 (max_id - min_id)) in
  yield_random_entries env not_indexed_query batch_size max_id min_id
  ++ yield_random_entries env (index_error_query reindex_threshold)
       batch_size max_id min_id
  ++ yield_random_entries env
       (needs_reindexing_query (default "" (state indexer_state)) reindex_threshold)
       batch_size max_id min_id.

Definition config_batch_size (batch_size : option Z) : option Z :=
  if truthy batch_size then batch_size
  else Some (default 0 (SECURITY_SCANNER_V4_BATCH_SIZE env)).

(** [datetime.utcnow() - timedelta(seconds=...)]: either step may raise
    [OverflowError]. *)
Definition config_reindex_threshold : Result Z :=
  delta ← timedelta (default 86400 (SECURITY_SCANNER_V4_REINDEX_THRESHOLD env));
  datetime_sub (utcnow env) delta.

Definition perform_indexing_recent_manifests (batch_size : option Z)
  : M (option ScanToken) :=
  match secscan_state env with
  | APIRequestFailure _ => mret None
  | ApiOk indexer_state =>
      let batch_size := default 0 (config_batch_size batch_size) in
      reindex_threshold ← lift config_reindex_threshold;
      match scalar_max (manifest_ids env) with
      | None => raise TypeError
      | Some end_index =>
          let start_index := Z.max (end_index - batch_size) 1 in
          let iterator :=
            _get_manifest_iterator indexer_state start_index end_index
              (Some (Z.max (batch_size `div` 20) 1)) (Some reindex_threshold) in
          _index iterator reindex_threshold;;
          mret None
      end
  end.

Definition perform_indexing (start_token : option ScanToken)
    (batch_size : option Z) : M (option ScanToken) :=
  match secscan_state env with
  | APIRequestFailure _ => mret None
  | ApiOk indexer_state =>
      let batch_size := config_batch_size batch_size in
      reindex_threshold ← lift config_reindex_threshold;
      let max_id := scalar_max (manifest_ids env) in
      let start_index :=
        match start_token with
        | Some token => Some (min_id token)
        | None => scalar_min (manifest_ids env)
        end in
      match max_id, start_index with
      | Some max_id, Some start_index =>
          if start_index >? max_id then mret None
          else
            let iterator :=
              _get_manifest_iterator indexer_state start_index max_id
                batch_size (Some reindex_threshold) in
            _index iterator reindex_threshold;;
            mret (Some {| min_id := max_id + 1 |})
      | _, _ => mret None
      end
  end.

Definition load_security_information
    (manifest_or_legacy_image : ManifestOrLegacyImage)
  : M SecurityInformationLookupResult :=
  match manifest_or_legacy_image with
  | LegacyImage => mret (with_status UNSUPPORTED_FOR_INDEXING)
  | ManifestDataType manifest =>
      table ← get_table;
      match manifestsecuritystatus_set manifest table with
      | [] => mret (with_status NOT_YET_INDEXED)
      | status :: _ =>
          match index_status status with
          | FAILED => mret (with_status FAILED_TO_INDEX)
          | MANIFEST_UNSUPPORTED => mret (with_status UNSUPPORTED_FOR_INDEXING)
          | IN_PROGRESS => mret (with_status NOT_YET_INDEXED)
          | COMPLETED =>
              match secscan_vulnerability_report env (manifest_digest manifest) with
              | APIRequestFailure msg => mret (for_request_error msg)
              | ApiOk None => mret (with_status NOT_YET_INDEXED)
              | ApiOk (Some report) =>
                  features ← lift (features_for (fetch_vuln_severity env) report);
                  mret (for_data
                    {| si_Layer :=
                         {| layer_Name := manifest_hash report;
                            layer_ParentName := "";
                            layer_NamespaceName := "";
                            layer_IndexedByVersion := 4;
                            layer_Features := features |} |})
              end
          end
      end
  end.

Definition lookup_notification_page (notification_id : string)
    (page_index : option string) : Result PaginatedNotificationResult :=
  match secscan_retrieve_notification_page env notification_id page_index with
  | APIRequestFailure _ =>
      Ok {| pn_status := RETRYABLE_ERROR; pn_data := None;
            pn_next_page_index := None |}
  | ApiOk None =>
      Ok {| pn_status := FATAL_ERROR; pn_data := None;
            pn_next_page_index := None |}
  | ApiOk (Some notification_page_results) =>
      match notifications notification_page_results with
      | None => Raise (KeyError "notifications")
      | Some entries =>
          Ok {| pn_status := SUCCESS; pn_data := Some entries;
                pn_next_page_index := page notification_page_results ≫= next |}
      end
  end.

End V4SecurityScanner.

(** ** [process_notification_page] *)

Record NotifiedPackageJson := { notified_package_name : option string }.

(** The vulnerability stanza of a notification; every key is read with
    [.get]. *)
Record NotifiedVulnerabilityJson := {
  nv_normalized_severity : option string;
  nv_description : option string;
  nv_package : option NotifiedPackageJson;
  nv_name : option string;
  nv_fixed_in_version : option string;
  nv_links : option string;
}.

(** A notification entry with the stanza [process_notification_page] reads
    from it. *)
Record NotificationData := {
  nd_entry : NotificationJson;
  nd_vulnerability : NotifiedVulnerabilityJson;
}.

(** The [Vulnerability] tuple as this function fills it: each field may be
    [None], and [Metadata] is [{}]. *)
Record NotifiedVulnerability := {
  nv_Severity : option string;
  nv_Description : option string;
  nv_NamespaceName : option string;
  nv_Name : option string;
  nv_FixedBy : option string;
  nv_Link : option string;
}.

Record UpdatedVulnerability := {
  ManifestDigest : string;
  updated_Vulnerability : NotifiedVulnerability;
}.

(** The generator, as the sequence it yields. *)
Fixpoint process_notification_page (page_result : list NotificationData)
  : list UpdatedVulnerability :=
  match page_result with
  | [] => []
  | notification_data :: page_result' =>
      if negb (String.eqb (reason (nd_entry notification_data)) "added")
      then process_notification_page page_result'
      else
        {| ManifestDigest := notified_manifest (nd_entry notification_data);
           updated_Vulnerability :=
             {| nv_Severity :=
                  nv_normalized_severity (nd_vulnerability notification_data);
                nv_Description :=
                  nv_description (nd_vulnerability notification_data);
                nv_NamespaceName :=
                  nv_package (nd_vulnerability notification_data)
                  ≫= notified_package_name;
                nv_Name := nv_name (nd_vulnerability notification_data);
                nv_FixedBy :=
                  nv_fixed_in_version (nd_vulnerability notification_data);
                nv_Link := nv_links (nd_vulnerability notification_data) |} |}
        :: process_notification_page page_result'
  end.

(** * Properties and example inputs *)

(** "Claimed by another worker": the status row attached to the candidate
    is at or after the threshold, or no row was attached by the producing
    query and the table holds one now. *)
Definition claimed_by_another_worker (reindex_threshold : Z)
    (candidate : Manifest) (w : World) : Prop :=
  (∃ status, manifestsecuritystatus candidate = Some status
             ∧ reindex_threshold ≤ last_indexed status)
  ∨ (manifestsecuritystatus candidate = None
     ∧ ∃ row, row ∈ status_table w ∧ mss_manifest row = manifest_id candidate).

(** The world after one more log entry. *)
Definition logged (e : LogEntry) (w : World) : World :=
  {| status_table := status_table w;
     abort_flags := abort_flags w;
     log := log w ++ [e] |}.

(** The row [_index] writes for a candidate. *)
Definition status_row (env : Collaborators) (candidate : Manifest)
    (report : IndexReport) (state : string) (status : IndexStatus)
  : ManifestSecurityStatus :=
  {| mss_manifest := manifest_id candidate;
     mss_repository := manifest_repository candidate;
     index_status := status;
     indexer_hash := state;
     indexer_version := V4;
     last_indexed := utcnow env;
     error_json := report_err report |}.

(** The candidate gets as far as the remote submission. *)
Definition submitted (env : Collaborators) (reindex_threshold : Z)
    (candidate : Manifest) (w : World) (layers : list string) : Prop :=
  is_manifest_list candidate = false
  ∧ list_manifest_layers env candidate = Some layers
  ∧ layers ≠ []
  ∧ ¬ claimed_by_another_worker reindex_threshold candidate w.

Definition state_call_fails (env : Collaborators) : Prop :=
  ∃ msg, secscan_state env = APIRequestFailure msg.

(** No maximum id, no starting id, or start greater than maximum. *)
Definition range_empty_or_inverted (env : Collaborators)
    (start_token : option ScanToken) : Prop :=
  scalar_max (manifest_ids env) = None
  ∨ (start_token = None ∧ scalar_min (manifest_ids env) = None)
  ∨ (∃ token max_id, start_token = Some token
       ∧ scalar_max (manifest_ids env) = Some max_id ∧ max_id < min_id token).

Definition empty_world : World :=
  {| status_table := []; abort_flags := ∅; log := [] |}.

Definition finished_report : IndexReport :=
  {| report_state := Index_Finished; report_err := None |}.

(** A manifest with no status row joined to it. *)
Definition plain_manifest (id : Z) : Manifest :=
  {| manifest_id := id;
     manifest_repository := 7;
     manifest_digest := "sha256:0a";
     is_manifest_list := false;
     manifestsecuritystatus := None |}.

(** An engine that indexes everything, a registry that finds one layer for
    every manifest, the identifiers 1 and 2, and a sampler that yields both
    as never indexed, in one window. [ids] is the [Manifest] table and
    [broken] lists the manifests whose status transaction fails. *)
Definition example_env (ids broken : list Z) : Collaborators :=
  {| secscan_state := ApiOk {| state := Some "engine-1" |};
     secscan_index := λ _ _, Indexed finished_report "engine-1";
     secscan_vulnerability_report := λ _, ApiOk None;
     secscan_retrieve_notification_page := λ _ _, ApiOk None;
     list_manifest_layers := λ _, Some ["sha256:1f"];
     fetch_vuln_severity := λ vuln _, normalized_severity vuln;
     manifest_ids := ids;
     db_commits := λ id, bool_decide (id ∉ broken);
     utcnow := 100000;
     SECURITY_SCANNER_V4_BATCH_SIZE := None;
     SECURITY_SCANNER_V4_REINDEX_THRESHOLD := None;
     yield_random_entries := λ query _ _ _,
       match query with
       | not_indexed_query =>
           [(plain_manifest 1, 0%nat, 1%nat); (plain_manifest 2, 0%nat, 0%nat)]
       | _ => []
       end;
     int_pow4_log10 := λ _, 4 |}.

Definition fresh_row : ManifestSecurityStatus :=
  {| mss_manifest := 1;
     mss_repository := 7;
     index_status := COMPLETED;
     indexer_hash := "engine-1";
     indexer_version := V4;
     last_indexed := 99000;
     error_json := None |}.

(** A manifest list that the producing query found without a status row. *)
Definition manifest_list (id : Z) : Manifest :=
  {| manifest_id := id;
     manifest_repository := 7;
     manifest_digest := "sha256:0a";
     is_manifest_list := true;
     manifestsecuritystatus := None |}.

(** Manifest 1 has a status row since the query ran. *)
Definition claimed_world : World :=
  {| status_table := [fresh_row]; abort_flags := ∅; log := [] |}.

(** The row another worker wrote for the manifest list 1. *)
Definition unsupported_row : ManifestSecurityStatus :=
  {| mss_manifest := 1;
     mss_repository := 7;
     index_status := MANIFEST_UNSUPPORTED;
     indexer_hash := "none";
     indexer_version := V4;
     last_indexed := 99000;
     error_json := None |}.

Definition unsupported_world : World :=
  {| status_table := [unsupported_row]; abort_flags := ∅; log := [] |}.

Definition working_env : Collaborators := example_env [1; 2] [].

(** The status transaction of manifest 1 fails. *)
Definition broken_env : Collaborators := example_env [1; 2] [1].

(** No manifest at all. *)
Definition empty_env : Collaborators := example_env [] [].

(** The two candidates the example sampler yields, both of window 0. *)
Definition example_window : list Item :=
  [(plain_manifest 1, 0%nat, 1%nat); (plain_manifest 2, 0%nat, 0%nat)].

(** The entry the normalizer should pick among the candidates of one
    vulnerability id: at position [i], of the highest base score, and the
    earliest of that score. *)
Definition first_of_highest_score (cands : list EnrichmentEntry) (i : nat)
    (e : EnrichmentEntry) : Prop :=
  cands !! i = Some e
  ∧ (∀ j c, cands !! j = Some c → (baseScore c <= baseScore e)%Q)
  ∧ (∀ j c, (j < i)%nat → cands !! j = Some c → (baseScore c < baseScore e)%Q).

Definition cvss_of (out : Vulnerability) : CVSSv3 :=
  nvd_CVSSv3 (meta_NVD (vuln_Metadata out)).

(** The package-vulnerability entries of a report, in the order the
    normalizer meets them: package by package, and within a package in the
    order of its [package_vulnerabilities] list. *)
Definition entries_of_ids (report : VulnerabilityReport) (pkg : Package)
    (ids : list string) : list (Package * VulnerabilityJson) :=
  id ← ids;
  from_option (λ vuln, [(pkg, vuln)]) [] (vulnerabilities report !! id).

Definition entries_of (report : VulnerabilityReport)
    (pkgs : list (string * Package)) : list (Package * VulnerabilityJson) :=
  p ← pkgs;
  entries_of_ids report p.2 (default [] (package_vulnerabilities report !! p.1)).

Definition encountered (report : VulnerabilityReport)
  : list (Package * VulnerabilityJson) :=
  entries_of report (packages report).

Definition entry_key (entry : Package * VulnerabilityJson) : string :=
  vuln_key entry.1 entry.2.

(** The composite key of the specification: the triple itself. *)
Definition entry_triple (entry : Package * VulnerabilityJson)
  : string * string * string :=
  (pkg_name entry.1, pkg_version entry.1, default "" (vuln_name entry.2)).

(** First occurrence wins, later duplicates for the same key are dropped:
    the deduplication as the specification words it, over the keys in
    [seen] and the entries still to come. *)
Fixpoint first_occurrences (seen : gset string)
    (entries : list (Package * VulnerabilityJson))
  : list (Package * VulnerabilityJson) :=
  match entries with
  | [] => []
  | entry :: entries' =>
      if decide (entry_key entry ∈ seen) then first_occurrences seen entries'
      else entry :: first_occurrences ({[entry_key entry]} ∪ seen) entries'
  end.

Definition keys_of (entries : list (Package * VulnerabilityJson)) : gset string :=
  list_to_set (entry_key <$> entries).

(** The vulnerability entries of the normalized output, each with the name
    and version of its feature. *)
Definition out_entries (features : list Feature)
  : list (string * string * Vulnerability) :=
  f ← features;
  out ← feat_Vulnerabilities f;
  [(feat_Name f, feat_Version f, out)].

Definition out_triple (o : string * string * Vulnerability)
  : string * string * string :=
  (o.1.1, o.1.2, Name o.2).

(** An output entry is the normalization of an input entry. *)
Definition normalized_from
    (fetch_vuln_severity : VulnerabilityJson → gmap string EnrichmentEntry → string)
    (enr : gmap string EnrichmentEntry)
    (entry : Package * VulnerabilityJson) (o : string * string * Vulnerability)
  : Prop :=
  o.1.1 = pkg_name entry.1
  ∧ o.1.2 = pkg_version entry.1
  ∧ to_vulnerability fetch_vuln_severity enr entry.2 = Ok o.2.

Definition example_severity (vuln : VulnerabilityJson)
    (enr : gmap string EnrichmentEntry) : string :=
  normalized_severity vuln.

Definition cve_x (id repo : string) : VulnerabilityJson :=
  {| vuln_id := id;
     vuln_name := Some "CVE-X";
     updater := "rhel";
     links := "https://example.org/CVE-X";
     fixed_in_version := "0";
     description := "overflow";
     normalized_severity := "High";
     repository := Some {| repo_name := Some repo; repo_uri := None |};
     distribution := None |}.

(** One package, one vulnerability, two enrichment sources; the first
    source has two candidates for the vulnerability, scored 7.5 and 9.0. *)
Definition scored_report : VulnerabilityReport :=
  {| manifest_hash := "sha256:0a";
     packages := [("1", {| pkg_name := "openssl"; pkg_version := "1.1.1" |})];
     environments := {[ "1" := [{| introduced_in := "sha256:1f" |}] ]};
     package_vulnerabilities := {[ "1" := ["v1"] ]};
     vulnerabilities := {[ "v1" := cve_x "v1" "repo-a" ]};
     enrichments := Some
       [("enricher=clair.cvss",
         [{[ "v1" := [{| baseScore := 7.5; vectorString := Some "CVSS:3.1/AV:L" |};
                      {| baseScore := 9.0; vectorString := Some "CVSS:3.1/AV:N" |}] ]}]);
        ("enricher=other",
         [{[ "v1" := [{| baseScore := 10; vectorString := Some "CVSS:3.1/AV:P" |}] ]}])] |}.

Definition scored_output : string * string * Vulnerability :=
  ("openssl", "1.1.1",
   {| Severity := "High";
      NamespaceName := "rhel";
      Link := "https://example.org/CVE-X";
      FixedBy := "";
      Description := "overflow";
      Name := "CVE-X";
      vuln_Metadata :=
        {| UpdatedBy := "rhel";
           RepoName := Some "repo-a";
           RepoLink := None;
           DistroName := None;
           DistroVersion := None;
           meta_NVD :=
             {| nvd_CVSSv3 :=
                  {| Vectors := "CVSS:3.1/AV:N"; Score := Some 9.0%Q |} |} |} |}).

(** Two packages whose names and versions differ and whose concatenated
    keys agree: "foo_bar" at "1.0", and "foo" at "bar_1.0". Each has
    CVE-X; the second has it from two repositories. *)
Definition collision_report : VulnerabilityReport :=
  {| manifest_hash := "sha256:0b";
     packages := [("1", {| pkg_name := "foo_bar"; pkg_version := "1.0" |});
                  ("2", {| pkg_name := "foo"; pkg_version := "bar_1.0" |})];
     environments := {[ "1" := [{| introduced_in := "sha256:1f" |}];
                        "2" := [{| introduced_in := "sha256:2f" |}] ]};
     package_vulnerabilities := {[ "1" := ["v1"]; "2" := ["v2"; "v3"] ]};
     vulnerabilities := {[ "v1" := cve_x "v1" "repo-a";
                           "v2" := cve_x "v2" "repo-a";
                           "v3" := cve_x "v3" "repo-b" ]};
     enrichments := None |}.

(** One package with CVE-X from two repositories. *)
Definition duplicate_report : VulnerabilityReport :=
  {| manifest_hash := "sha256:0c";
     packages := [("2", {| pkg_name := "foo"; pkg_version := "bar_1.0" |})];
     environments := {[ "2" := [{| introduced_in := "sha256:2f" |}] ]};
     package_vulnerabilities := {[ "2" := ["v2"; "v3"] ]};
     vulnerabilities := {[ "v2" := cve_x "v2" "repo-a";
                           "v3" := cve_x "v3" "repo-b" ]};
     enrichments := None |}.

(** No two entries of the report with different (name, version,
    vulnerability name) have the same concatenated key. *)
Definition collision_free (report : VulnerabilityReport) : Prop :=
  ∀ e1 e2, e1 ∈ encountered report → e2 ∈ encountered report →
           entry_key e1 = entry_key e2 → entry_triple e1 = entry_triple e2.

Definition key_of_triple (t : string * string * string) : string :=
  t.1.1 +:+ "_" +:+ t.1.2 +:+ "_" +:+ t.2.

(** [dedupe_vulns] only ever maps keys to [True]. *)
Definition all_true (dedupe_vulns : gmap string bool) : Prop :=
  ∀ key b, dedupe_vulns !! key = Some b → b = true.

(** A report the normalizer can read to the end: every package has an
    environment, every vulnerability id of a package resolves to a stanza
    with a name, and the enrichments can be read. *)
Definition well_formed (report : VulnerabilityReport) : Prop :=
  (∀ pkg_id pkg, (pkg_id, pkg) ∈ packages report →
     (∃ env envs, environments report !! pkg_id = Some (env :: envs))
     ∧ ∀ id, id ∈ default [] (package_vulnerabilities report !! pkg_id) →
             ∃ vuln, vulnerabilities report !! id = Some vuln
                     ∧ is_Some (vuln_name vuln))
  ∧ ∃ enr, enrichments_for report = Ok enr.

(** * Further properties: definitions *)

(** The row [mark_manifest_unsupported] writes. *)
Definition unsupported_status_row (env : Collaborators) (candidate : Manifest)
  : ManifestSecurityStatus :=
  {| mss_manifest := manifest_id candidate;
     mss_repository := manifest_repository candidate;
     index_status := MANIFEST_UNSUPPORTED;
     indexer_hash := "none";
     indexer_version := V4;
     last_indexed := utcnow env;
     error_json := None |}.

(** The rows of a table for one manifest in one repository. *)
Definition rows_of (candidate : Manifest) (table : list ManifestSecurityStatus)
  : list ManifestSecurityStatus :=
  filter (λ row, mss_manifest row = manifest_id candidate
                 ∧ mss_repository row = manifest_repository candidate) table.

(** Every run of a computation relates the world before to the world
    after, also when it raises. *)
Definition preserves {A : Type} (P : World → World → Prop) (m : M A) : Prop :=
  ∀ w r w', m w = (r, w') → P w w'.

(** What a pass over the manifests [ids], handed the abort events [abts],
    may change: status rows of those manifests only, abort events of those
    windows only and only by setting them, and the log only by adding to
    its end. *)
Definition touches_only (ids : gset Z) (abts : gset nat) (w w' : World) : Prop :=
  (∀ row, mss_manifest row ∉ ids →
          row ∈ status_table w' ↔ row ∈ status_table w)
  ∧ abort_flags w ⊆ abort_flags w'
  ∧ abort_flags w' ⊆ abts ∪ abort_flags w
  ∧ log w `prefix_of` log w'.

Definition manifests_of (iterator : list Item) : gset Z :=
  list_to_set ((λ item : Item, manifest_id item.1.1) <$> iterator).

Definition abts_of (iterator : list Item) : gset nat :=
  list_to_set ((λ item : Item, item.1.2) <$> iterator).

(** A candidate of the re-indexing queries: its attached status row is
    older than the threshold. *)
Definition stale_manifest (id : Z) : Manifest :=
  {| manifest_id := id;
     manifest_repository := 7;
     manifest_digest := "sha256:0a";
     is_manifest_list := false;
     manifestsecuritystatus := Some
       {| mss_manifest := id;
          mss_repository := 7;
          index_status := FAILED;
          indexer_hash := "engine-0";
          indexer_version := V4;
          last_indexed := 10000;
          error_json := Some "boom" |} |}.

(** The concatenated key of an output entry. *)
Definition out_key (o : string * string * Vulnerability) : string :=
  key_of_triple (out_triple o).

Definition added (notification_data : NotificationData) : Prop :=
  reason (nd_entry notification_data) = "added".

Definition example_notification (why digest : string) : NotificationData :=
  {| nd_entry := {| reason := why; notified_manifest := digest |};
     nd_vulnerability :=
       {| nv_normalized_severity := Some "High";
          nv_description := None;
          nv_package := Some {| notified_package_name := Some "openssl" |};
          nv_name := Some "CVE-X";
          nv_fixed_in_version := Some "0";
          nv_links := None |} |}.

#[global] Instance added_dec (notification_data : NotificationData) :
  Decision (added notification_data).
Proof. unfold added. apply _. Defined.

(** The example engine, answering every submission with [outcome]. *)
Definition engine_env (outcome : IndexOutcome) (broken : list Z) : Collaborators :=
  {| secscan_state := ApiOk {| state := Some "engine-1" |};
     secscan_index := λ _ _, outcome;
     secscan_vulnerability_report := λ _, ApiOk None;
     secscan_retrieve_notification_page := λ _ _, ApiOk None;
     list_manifest_layers := λ _, Some ["sha256:1f"];
     fetch_vuln_severity := λ vuln _, normalized_severity vuln;
     manifest_ids := [1; 2];
     db_commits := λ id, bool_decide (id ∉ broken);
     utcnow := 100000;
     SECURITY_SCANNER_V4_BATCH_SIZE := None;
     SECURITY_SCANNER_V4_REINDEX_THRESHOLD := None;
     yield_random_entries := λ _ _ _ _, [];
     int_pow4_log10 := λ _, 4 |}.

(** What the normalizer needs of a report to return: every package has an
    environment, every vulnerability id of a package resolves, the
    enrichments can be read if there is a package at all, and every
    vulnerability that is kept has a name. *)
Definition readable (report : VulnerabilityReport) : Prop :=
  (∀ pkg_id pkg, (pkg_id, pkg) ∈ packages report →
     (∃ env envs, environments report !! pkg_id = Some (env :: envs))
     ∧ ∀ id, id ∈ default [] (package_vulnerabilities report !! pkg_id) →
             is_Some (vulnerabilities report !! id))
  ∧ (packages report ≠ [] → ∃ enr, enrichments_for report = Ok enr)
  ∧ (∀ entry, entry ∈ first_occurrences ∅ (encountered report) →
              is_Some (vuln_name entry.2)).

(** A feature is the feature of a package. *)
Definition feature_of (report : VulnerabilityReport) (p : string * Package)
    (f : Feature) : Prop :=
  feat_Name f = pkg_name p.2
  ∧ feat_Version f = pkg_version p.2
  ∧ feat_VersionFormat f = ""
  ∧ feat_NamespaceName f = ""
  ∧ ∃ env envs, environments report !! p.1 = Some (env :: envs)
                ∧ feat_AddedBy f = introduced_in env.

(** A second stanza for CVE-X that has no name: met after the first, it is
    dropped before its name is needed. *)
Definition nameless (id : string) : VulnerabilityJson :=
  {| vuln_id := id;
     vuln_name := None;
     updater := "rhel";
     links := "";
     fixed_in_version := "1.2";
     description := "";
     normalized_severity := "Low";
     repository := None;
     distribution := None |}.

(** One package whose two stanzas have the same key: the first is named
    with the empty string, the second has no name at all. *)
Definition nameless_report : VulnerabilityReport :=
  {| manifest_hash := "sha256:0d";
     packages := [("1", {| pkg_name := "zlib"; pkg_version := "1.2" |})];
     environments := {[ "1" := [{| introduced_in := "sha256:1f" |}] ]};
     package_vulnerabilities := {[ "1" := ["v1"; "v2"] ]};
     vulnerabilities :=
       {[ "v1" := {| vuln_id := "v1";
                     vuln_name := Some "";
                     updater := "rhel";
                     links := "";
                     fixed_in_version := "1.3";
                     description := "";
                     normalized_severity := "Low";
                     repository := None;
                     distribution := None |};
          "v2" := nameless "v2" ]};
     enrichments := None |}.

Definition duplicate_output : string * string * Vulnerability :=
  ("foo", "bar_1.0",
   {| Severity := "High";
      NamespaceName := "rhel";
      Link := "https://example.org/CVE-X";
      FixedBy := "";
      Description := "overflow";
      Name := "CVE-X";
      vuln_Metadata :=
        {| UpdatedBy := "rhel";
           RepoName := Some "repo-a";
           RepoLink := None;
           DistroName := None;
           DistroVersion := None;
           meta_NVD :=
             {| nvd_CVSSv3 := {| Vectors := ""; Score := None |} |} |} |}).

Definition duplicate_features : list Feature :=
  [{| feat_Name := "foo";
      feat_VersionFormat := "";
      feat_NamespaceName := "";
      feat_AddedBy := "sha256:2f";
      feat_Version := "bar_1.0";
      feat_Vulnerabilities := [duplicate_output.2] |}].

(** The world after the working engine has indexed [candidate] alone. *)
Definition indexed_world (candidate : Manifest) : World :=
  {| status_table := [status_row working_env candidate finished_report
                        "engine-1" COMPLETED];
     abort_flags := ∅;
     log := [debug_indexing (manifest_id candidate)] |}.

(** * The claims on the store and on failing writes: definitions *)

(** A status record exists for the candidate with [last_indexed] at or
    after the threshold, or one exists at all when the producing query
    attached none. *)
Definition status_record_claims (reindex_threshold : Z) (candidate : Manifest)
    (w : World) : Prop :=
  (∃ row, row ∈ status_table w
          ∧ mss_manifest row = manifest_id candidate
          ∧ reindex_threshold ≤ last_indexed row)
  ∨ (manifestsecuritystatus candidate = None
     ∧ ∃ row, row ∈ status_table w ∧ mss_manifest row = manifest_id candidate).

(** The row the query attached to the candidate, if any, is still what the
    table holds for it. *)
Definition snapshot_current (candidate : Manifest) (w : World) : Prop :=
  ∀ attached, manifestsecuritystatus candidate = Some attached →
    ∀ row, row ∈ status_table w → mss_manifest row = manifest_id candidate →
           row = attached.

(** The step of this candidate, taken in this world, runs a status
    transaction: it is a manifest list, or has no layers, or it is submitted
    and the engine rejects its content or reports it finished or in
    error. *)
Definition attempts_write (env : Collaborators) (reindex_threshold : Z)
    (item : Item) (w : World) : Prop :=
  is_manifest_list item.1.1 = true
  ∨ (is_manifest_list item.1.1 = false
     ∧ (list_manifest_layers env item.1.1 = None
        ∨ list_manifest_layers env item.1.1 = Some []))
  ∨ ∃ layers,
      submitted env reindex_threshold item.1.1 w layers
      ∧ (secscan_index env item.1.1 layers = InvalidContentSent
         ∨ ∃ report st,
             secscan_index env item.1.1 layers = Indexed report st
             ∧ (report_state report = Index_Finished
                ∨ report_state report = Index_Error)).

(** Some status transaction of the pass fails: the candidates before it
    went through, and its own step runs a transaction that the store
    refuses. *)
Definition failing_write (env : Collaborators) (reindex_threshold : Z)
    (iterator : list Item) (w : World) : Prop :=
  ∃ before item after w1,
    iterator = before ++ item :: after
    ∧ _index env before reindex_threshold w = (Ok tt, w1)
    ∧ attempts_write env reindex_threshold item w1
    ∧ db_commits env (manifest_id item.1.1) = false.

(** Where [perform_indexing] starts: at the token, or at the least id. *)
Definition start_index_of (env : Collaborators) (start_token : option ScanToken)
  : option Z :=
  match start_token with
  | Some token => Some (min_id token)
  | None => scalar_min (manifest_ids env)
  end.


(** No manifest at all, and an engine that does not answer. *)
Definition offline_env : Collaborators :=
  {| secscan_state := APIRequestFailure "connection refused";
     secscan_index := λ _ _, IndexRequestFailure;
     secscan_vulnerability_report := λ _, APIRequestFailure "connection refused";
     secscan_retrieve_notification_page := λ _ _, APIRequestFailure "connection refused";
     list_manifest_layers := λ _, Some ["sha256:1f"];
     fetch_vuln_severity := λ vuln _, normalized_severity vuln;
     manifest_ids := [];
     db_commits := λ _, true;
     utcnow := 100000;
     SECURITY_SCANNER_V4_BATCH_SIZE := None;
     SECURITY_SCANNER_V4_REINDEX_THRESHOLD := None;
     yield_random_entries := λ _ _ _ _, [];
     int_pow4_log10 := λ _, 4 |}.

(** The status transaction of manifest 2 fails. *)
Definition late_broken_env : Collaborators := example_env [1; 2] [2].

(** * The scanner *)

Section MonadLaws.

Lemma bind_run {A B : Type} (m : M A) (f : A → M B) (w : World) :
  (m ≫= f) w =
  match m w with
  | (Ok a, w') => f a w'
  | (Raise e, w') => (Raise e, w')
  end.
Proof. reflexivity. Qed.

Lemma bind_ok {A B : Type} (m : M A) (f : A → M B) (w w' : World) (a : A) :
  m w = (Ok a, w') → (m ≫= f) w = f a w'.
Proof. intros H. rewrite bind_run, H. reflexivity. Qed.

Lemma bind_raise {A B : Type} (m : M A) (f : A → M B) (w w' : World) (e : exn) :
  m w = (Raise e, w') → (m ≫= f) w = (Raise e, w').
Proof. intros H. rewrite bind_run, H. reflexivity. Qed.

End MonadLaws.

Section Pipeline.

Variable env : Collaborators.

Lemma status_set_nonempty (candidate : Manifest) (w : World) :
  (0 <? Z.of_nat (length (manifestsecuritystatus_set candidate (status_table w)))) = true
  ↔ ∃ row, row ∈ status_table w ∧ mss_manifest row = manifest_id candidate.
Proof.
  unfold manifestsecuritystatus_set. split.
  - intros H.
    destruct (filter _ (status_table w)) as [|row rows] eqn:E; [discriminate|].
    exists row.
    assert (Hin : row ∈ filter (λ r, mss_manifest r = manifest_id candidate)
                             (status_table w)) by (rewrite E; left).
    apply list_elem_of_filter in Hin. tauto.
  - intros (row & Hin & Hrow).
    assert (Hf : row ∈ filter (λ r, mss_manifest r = manifest_id candidate)
                            (status_table w))
      by (apply list_elem_of_filter; tauto).
    destruct (filter _ (status_table w)); [inversion Hf | reflexivity].
Qed.

Lemma should_skip_indexing_run (thr : Z) (candidate : Manifest) (w : World) :
  ∃ skip, should_skip_indexing thr candidate w = (Ok skip, w)
          ∧ (skip = true ↔ claimed_by_another_worker thr candidate w).
Proof.
  unfold should_skip_indexing, claimed_by_another_worker.
  destruct (manifestsecuritystatus candidate) as [status|].
  - eexists. split; [reflexivity|]. rewrite Z.geb_le. split.
    + intros H. left. eauto.
    + intros [(s & Hs & Hle)|(Hn & _)]; [congruence | discriminate].
  - eexists. split; [reflexivity|]. rewrite status_set_nonempty. split.
    + intros H. right. auto.
    + intros [(s & Hs & _)|(_ & H)]; [discriminate | exact H].
Qed.

Lemma db_transaction_run (manifest : Z)
    (body : list ManifestSecurityStatus → list ManifestSecurityStatus) (w : World) :
  db_transaction env manifest body w =
  if db_commits env manifest
  then (Ok tt, {| status_table := body (status_table w);
                  abort_flags := abort_flags w;
                  log := log w |})
  else (Raise DatabaseError, w).
Proof. reflexivity. Qed.

Lemma save_status_rows (candidate : Manifest) (report : IndexReport)
    (st : string) (status : IndexStatus) (w w' : World) :
  save_status env candidate report st status w = (Ok tt, w') →
  manifestsecuritystatus_set candidate (status_table w')
  = [status_row env candidate report st status]
  ∧ (∀ row, mss_manifest row ≠ manifest_id candidate →
            row ∈ status_table w' ↔ row ∈ status_table w)
  ∧ abort_flags w' = abort_flags w.
Proof.
  unfold save_status. rewrite db_transaction_run.
  destruct (db_commits env (manifest_id candidate)); [|discriminate].
  intros [= <-]. simpl. split; [|split; [|reflexivity]].
  - unfold manifestsecuritystatus_set. rewrite filter_app.
    replace (filter _ (filter _ (status_table w))) with (@nil ManifestSecurityStatus).
    + rewrite filter_cons_True by reflexivity. reflexivity.
    + symmetry. induction (status_table w) as [|row rows IH]; [reflexivity|].
      destruct (decide (mss_manifest row = manifest_id candidate)) as [Heq|Hne].
      * rewrite (filter_cons_False _ _ rows) by (intros H; exact (H Heq)).
        exact IH.
      * rewrite (filter_cons_True _ _ rows) by exact Hne.
        rewrite filter_cons_False by exact Hne. exact IH.
  - intros row Hrow. rewrite elem_of_app, list_elem_of_filter, list_elem_of_singleton.
    split.
    + intros [[_ H]|H]; [exact H|]. subst row. simpl in Hrow. congruence.
    + intros H. left. split; [exact Hrow | exact H].
Qed.

(** C2: once the remote submission of a candidate has succeeded, a report
    in state [IndexFinished] makes the pipeline run the status write with
    [COMPLETED], one in state [IndexError] with [FAILED], and any other
    state leaves the world untouched but for the log; the write, when its
    transaction commits, leaves exactly one row for the candidate, holding
    that status and the engine's fingerprint. *)
Theorem index_report_state_decides_status
    (thr : Z) (candidate : Manifest) (abt n : nat) (w : World)
    (layers : list string) (report : IndexReport) (st : string) :
  submitted env thr candidate w layers →
  secscan_index env candidate layers = Indexed report st →
  let w1 := logged (debug_indexing (manifest_id candidate)) w in
  (report_state report = Index_Finished →
     index_candidate env thr (candidate, abt, n) w
     = save_status env candidate report st COMPLETED w1)
  ∧ (report_state report = Index_Error →
     index_candidate env thr (candidate, abt, n) w
     = save_status env candidate report st FAILED w1)
  ∧ (report_state report ≠ Index_Finished → report_state report ≠ Index_Error →
     index_candidate env thr (candidate, abt, n) w = (Ok tt, w1))
  ∧ (∀ status,
       if db_commits env (manifest_id candidate)
       then ∃ w2, save_status env candidate report st status w1 = (Ok tt, w2)
                  ∧ manifestsecuritystatus_set candidate (status_table w2)
                    = [status_row env candidate report st status]
       else save_status env candidate report st status w1 = (Raise DatabaseError, w1)).
Proof.
  intros (Hlist & Hlayers & Hne & Hfree) Hindex w1.
  destruct (should_skip_indexing_run thr candidate w) as (skip & Hrun & Hskip).
  destruct skip; [exfalso; apply Hfree, Hskip; reflexivity|].
  assert (Hstep : index_candidate env thr (candidate, abt, n) w =
            if String.eqb (report_state report) Index_Finished
            then save_status env candidate report st COMPLETED w1
            else if String.eqb (report_state report) Index_Error
            then save_status env candidate report st FAILED w1
            else (Ok tt, w1)).
  { unfold index_candidate. rewrite Hlist, Hlayers.
    destruct layers as [|layer layers]; [congruence|].
    erewrite bind_ok by exact Hrun. cbv beta iota.
    erewrite bind_ok by reflexivity. rewrite Hindex.
    destruct (String.eqb (report_state report) Index_Finished); [reflexivity|].
    destruct (String.eqb (report_state report) Index_Error); reflexivity. }
  rewrite Hstep. repeat split.
  - intros ->. reflexivity.
  - intros ->. reflexivity.
  - intros H1 H2.
    apply String.eqb_neq in H1, H2. rewrite H1, H2. reflexivity.
  - intros status.
    destruct (db_commits env (manifest_id candidate)) eqn:Hdb.
    + destruct (save_status env candidate report st status w1) as [r w2] eqn:Hsave.
      assert (r = Ok tt) as ->.
      { unfold save_status in Hsave. rewrite db_transaction_run, Hdb in Hsave.
        congruence. }
      exists w2. split; [reflexivity|]. eapply save_status_rows, Hsave.
    + unfold save_status. rewrite db_transaction_run, Hdb. reflexivity.
Qed.

(** A transaction on the goal's left either commits, and then nothing was
    raised, or fails and leaves the world as it was. *)
Ltac run_transaction :=
  rewrite db_transaction_run;
  match goal with
  | |- context [db_commits ?env ?id] =>
      destruct (db_commits env id); intros [= <- <-]; auto
  end.

(** What a raising candidate leaves behind. *)
Lemma index_candidate_raise (thr : Z) (item : Item) (w w' : World) (e : exn) :
  index_candidate env thr item w = (Raise e, w') →
  e = DatabaseError
  ∧ db_commits env (manifest_id item.1.1) = false
  ∧ status_table w' = status_table w
  ∧ abort_flags w' = abort_flags w.
Proof.
  destruct item as [[candidate abt] n]. unfold index_candidate. simpl.
  destruct (should_skip_indexing_run thr candidate w) as (skip & Hrun & _).
  unfold mark_manifest_unsupported, save_status.
  destruct (is_manifest_list candidate).
  { run_transaction. }
  destruct (list_manifest_layers env candidate) as [[|layer layers]|].
  1, 3: erewrite bind_ok by reflexivity; run_transaction.
  erewrite bind_ok by exact Hrun.
  destruct skip.
  { erewrite bind_ok by reflexivity. discriminate. }
  erewrite bind_ok by reflexivity.
  destruct (secscan_index env candidate (layer :: layers)) as [report st| |].
  - destruct (String.eqb (report_state report) Index_Finished);
      [|destruct (String.eqb (report_state report) Index_Error)];
      try discriminate; run_transaction.
  - rewrite bind_run, db_transaction_run.
    destruct (db_commits env (manifest_id candidate)); [discriminate|].
    intros [= <- <-]. auto.
  - discriminate.
Qed.

Lemma index_candidate_commits (thr : Z) (item : Item) (w : World) :
  db_commits env (manifest_id item.1.1) = true →
  ∃ w', index_candidate env thr item w = (Ok tt, w').
Proof.
  intros Hdb.
  destruct (index_candidate env thr item w) as [[[]|e] w'] eqn:Hstep; [eauto|].
  apply index_candidate_raise in Hstep. destruct Hstep as (_ & Hno & _). congruence.
Qed.

Lemma index_run (iterator : list Item) (thr : Z) (w : World) :
  ∃ w', _index env iterator thr w = (Ok tt, w')
        ∨ _index env iterator thr w = (Raise DatabaseError, w').
Proof.
  revert w. induction iterator as [|item rest IH]; intros w.
  - exists w. left. reflexivity.
  - destruct (index_candidate env thr item w) as [[[]|e] w1] eqn:Hstep.
    + destruct (IH w1) as (w' & H). exists w'.
      simpl. erewrite bind_ok by exact Hstep. exact H.
    + exists w1. right.
    destruct (index_candidate_raise thr item w w1 e Hstep) as (-> & _).
    simpl. erewrite bind_raise by exact Hstep. reflexivity.
Qed.

Lemma index_commits (iterator : list Item) (thr : Z) (w : World) :
  (∀ id, db_commits env id = true) →
  ∃ w', _index env iterator thr w = (Ok tt, w').
Proof.
  intros Hdb. revert w. induction iterator as [|item rest IH]; intros w.
  - exists w. reflexivity.
  - destruct (index_candidate_commits thr item w (Hdb _)) as (w1 & Hstep).
    destruct (IH w1) as (w' & H). exists w'.
    simpl. erewrite bind_ok by exact Hstep. exact H.
Qed.

Lemma state_call_fails_dec :
  state_call_fails env ∨ ∃ st, secscan_state env = ApiOk st.
Proof.
  unfold state_call_fails. destruct (secscan_state env) as [st|msg]; eauto.
Qed.

Lemma scalar_min_le_max (x : Z) (l : list Z) :
  foldr Z.min x l ≤ x ≤ foldr Z.max x l.
Proof. induction l as [|y l IH]; simpl; lia. Qed.

(** The three ways out of [perform_indexing] before the pass. *)
Lemma range_empty_or_inverted_spec (start_token : option ScanToken) :
  range_empty_or_inverted env start_token
  ↔ match scalar_max (manifest_ids env),
          match start_token with
          | Some token => Some (min_id token)
          | None => scalar_min (manifest_ids env)
          end with
    | Some max_id, Some start_index => (start_index >? max_id) = true
    | _, _ => True
    end.
Proof.
  unfold range_empty_or_inverted.
  destruct (scalar_max (manifest_ids env)) as [max_id|] eqn:Hmax;
    [|split; auto].
  destruct start_token as [token|].
  - rewrite Z.gtb_gt. split.
    + intros [H|[[H _]|(t & m & [= <-] & [= <-] & H)]]; [discriminate..|lia].
    + intros H. right. right. exists token, max_id. repeat split. lia.
  - destruct (scalar_min (manifest_ids env)) as [start|] eqn:Hmin.
    + split.
      * intros [H|[[_ H]|(t & m & H & _)]]; discriminate.
      * intros H. exfalso.
        unfold scalar_max, scalar_min in *.
        destruct (manifest_ids env) as [|x l]; [discriminate|].
        injection Hmax as <-. injection Hmin as <-.
        apply Z.gtb_gt in H. pose proof (scalar_min_le_max x l). lia.
    + split; auto.
Qed.

(** C9: a manifest whose stored status is [COMPLETED] and for which the
    engine answers the report fetch with no report is reported as
    [NOT_YET_INDEXED]; so is one whose stored status is [IN_PROGRESS]. *)
Theorem load_security_information_not_yet_indexed
    (manifest : Manifest) (w : World) (status : ManifestSecurityStatus) :
  head (manifestsecuritystatus_set manifest (status_table w)) = Some status →
  (index_status status = COMPLETED →
     secscan_vulnerability_report env (manifest_digest manifest) = ApiOk None →
     load_security_information env (ManifestDataType manifest) w
     = (Ok (with_status NOT_YET_INDEXED), w))
  ∧ (index_status status = IN_PROGRESS →
     load_security_information env (ManifestDataType manifest) w
     = (Ok (with_status NOT_YET_INDEXED), w)).
Proof.
  intros Hhead. unfold load_security_information.
  erewrite bind_ok by reflexivity.
  destruct (manifestsecuritystatus_set manifest (status_table w)) as [|row rows];
    [discriminate|].
  injection Hhead as ->. split.
  - intros -> ->. reflexivity.
  - intros ->. reflexivity.
Qed.

(** C7: a notification set the engine no longer has gives [FATAL_ERROR]
    with no entries and no next page; a failed request gives
    [RETRYABLE_ERROR]; both are returned, not raised. A page gives
    [SUCCESS] with its entries and its next-page token, absent when the
    page names none. *)
Theorem lookup_notification_page_cases
    (notification_id : string) (page_index : option string) :
  (secscan_retrieve_notification_page env notification_id page_index = ApiOk None →
     lookup_notification_page env notification_id page_index
     = Ok {| pn_status := FATAL_ERROR; pn_data := None;
             pn_next_page_index := None |})
  ∧ (∀ msg,
       secscan_retrieve_notification_page env notification_id page_index
       = APIRequestFailure msg →
       lookup_notification_page env notification_id page_index
       = Ok {| pn_status := RETRYABLE_ERROR; pn_data := None;
               pn_next_page_index := None |})
  ∧ (∀ results entries,
       secscan_retrieve_notification_page env notification_id page_index
       = ApiOk (Some results) →
       notifications results = Some entries →
       lookup_notification_page env notification_id page_index
       = Ok {| pn_status := SUCCESS; pn_data := Some entries;
               pn_next_page_index := page results ≫= next |}
       ∧ (page results ≫= next = None
          ↔ page results = None ∨ ∃ p, page results = Some p ∧ next p = None)).
Proof.
  unfold lookup_notification_page. repeat split.
  - intros ->. reflexivity.
  - intros msg ->. reflexivity.
  - rewrite H, H0. reflexivity.
  - destruct (page results) as [p|]; simpl; eauto.
  - intros [->|(p & -> & Hp)]; [reflexivity | exact Hp].
Qed.

End Pipeline.

(** * The scanner on concrete inputs *)

(** A full pass over two manifests with a working store: both end up
    [COMPLETED] and the token names the identifier after the last one. *)
Example perform_indexing_two_manifests :
  (perform_indexing working_env None None empty_world).1
  = Ok (Some {| min_id := 3 |})
  ∧ ((λ row, (mss_manifest row, index_status row))
       <$> status_table (perform_indexing working_env None None empty_world).2)
    = [(1, COMPLETED); (2, COMPLETED)]
  ∧ log (perform_indexing working_env None None empty_world).2
    = [debug_indexing 1; debug_indexing 2].
Proof. repeat split; vm_compute; reflexivity. Qed.


(** C2, witness: manifest 1, never indexed, is submitted and comes back
    finished. *)
Lemma index_report_state_decides_status_witness :
  (report_state finished_report = Index_Finished →
     index_candidate working_env 50000 (plain_manifest 1, 0%nat, 1%nat) empty_world
     = save_status working_env (plain_manifest 1) finished_report "engine-1" COMPLETED
         (logged (debug_indexing 1) empty_world))
  ∧ (report_state finished_report = Index_Error →
     index_candidate working_env 50000 (plain_manifest 1, 0%nat, 1%nat) empty_world
     = save_status working_env (plain_manifest 1) finished_report "engine-1" FAILED
         (logged (debug_indexing 1) empty_world))
  ∧ (report_state finished_report ≠ Index_Finished →
     report_state finished_report ≠ Index_Error →
     index_candidate working_env 50000 (plain_manifest 1, 0%nat, 1%nat) empty_world
     = (Ok tt, logged (debug_indexing 1) empty_world))
  ∧ (∀ status,
       if db_commits working_env (manifest_id (plain_manifest 1))
       then ∃ w2, save_status working_env (plain_manifest 1) finished_report
                    "engine-1" status (logged (debug_indexing 1) empty_world)
                  = (Ok tt, w2)
                  ∧ manifestsecuritystatus_set (plain_manifest 1) (status_table w2)
                    = [status_row working_env (plain_manifest 1) finished_report
                         "engine-1" status]
       else save_status working_env (plain_manifest 1) finished_report
              "engine-1" status (logged (debug_indexing 1) empty_world)
            = (Raise DatabaseError, logged (debug_indexing 1) empty_world)).
Proof.
  apply (index_report_state_decides_status working_env 50000
           (plain_manifest 1) 0%nat 1%nat empty_world ["sha256:1f"]
           finished_report "engine-1").
  - repeat split; [discriminate|].
    intros [(status & H & _)|(_ & row & Hin & _)]; [discriminate | inversion Hin].
  - reflexivity.
Defined.

Example index_finished_report_is_completed :
  index_candidate working_env 50000 (plain_manifest 1, 0%nat, 1%nat) empty_world
  = (Ok tt,
     {| status_table := [status_row working_env (plain_manifest 1) finished_report
                           "engine-1" COMPLETED];
        abort_flags := ∅;
        log := [debug_indexing 1] |}).
Proof. reflexivity. Qed.

(** C3, as stated, fails: the engine answers [state()], the range is 1..2,
    and the pass raises instead of returning a token, because the status
    transaction of manifest 1 fails. *)
Lemma perform_indexing_raises_on_store_failure :
  ¬ state_call_fails broken_env
  ∧ ¬ range_empty_or_inverted broken_env None
  ∧ (perform_indexing broken_env None None empty_world).1 = Raise DatabaseError
  ∧ (perform_indexing broken_env None None empty_world).1 ≠ Ok None
  ∧ ¬ ∃ token, (perform_indexing broken_env None None empty_world).1 = Ok (Some token).
Proof.
  split; [|split; [|split; [|split]]].
  - intros (msg & H). discriminate.
  - rewrite range_empty_or_inverted_spec. discriminate.
  - vm_compute. reflexivity.
  - discriminate.
  - intros (token & H). discriminate.
Qed.

(** C4, as stated, fails: when the status transaction of manifest 1 fails,
    manifest 2 of the same window is never attempted, though it is when the
    store works. *)
Lemma index_store_failure_skips_rest_of_window :
  ((_index broken_env example_window 50000 empty_world).1 = Raise DatabaseError
   ∧ log (_index broken_env example_window 50000 empty_world).2 = [debug_indexing 1]
   ∧ status_table (_index broken_env example_window 50000 empty_world).2 = [])
  ∧ ((_index working_env example_window 50000 empty_world).1 = Ok tt
     ∧ log (_index working_env example_window 50000 empty_world).2
       = [debug_indexing 1; debug_indexing 2]
     ∧ (mss_manifest <$> status_table (_index working_env example_window 50000
                                         empty_world).2) = [1; 2]).
Proof. repeat split; vm_compute; reflexivity. Qed.

(** C7, on the example: the engine no longer has the notification set. *)
Lemma lookup_notification_page_cases_witness :
  lookup_notification_page working_env "notification-1" None
  = Ok {| pn_status := FATAL_ERROR; pn_data := None; pn_next_page_index := None |}.
Proof.
  apply (lookup_notification_page_cases working_env "notification-1" None).
  reflexivity.
Defined.

Example recent_manifests_on_empty_table :
  perform_indexing_recent_manifests empty_env (Some 100) empty_world
  = (Raise TypeError, empty_world).
Proof. reflexivity. Qed.

(** C9, witness: manifest 1 is [COMPLETED] in the table and the engine
    has no report for it. *)
Lemma load_security_information_not_yet_indexed_witness :
  (index_status fresh_row = COMPLETED →
     secscan_vulnerability_report working_env (manifest_digest (plain_manifest 1))
     = ApiOk None →
     load_security_information working_env (ManifestDataType (plain_manifest 1))
       claimed_world
     = (Ok (with_status NOT_YET_INDEXED), claimed_world))
  ∧ (index_status fresh_row = IN_PROGRESS →
     load_security_information working_env (ManifestDataType (plain_manifest 1))
       claimed_world
     = (Ok (with_status NOT_YET_INDEXED), claimed_world)).
Proof.
  apply (load_security_information_not_yet_indexed working_env
           (plain_manifest 1) claimed_world fresh_row).
  reflexivity.
Defined.

Example load_security_information_no_report :
  load_security_information working_env (ManifestDataType (plain_manifest 1))
    claimed_world
  = (Ok (with_status NOT_YET_INDEXED), claimed_world).
Proof. reflexivity. Qed.

(** * The report normalizer *)

Section SortedByScore.

Lemma head_insert_by_score (x : EnrichmentEntry) (l : list EnrichmentEntry) :
  head (insert_by_score x l)
  = Some match head l with
         | None => x
         | Some y => if Qle_bool (baseScore y) (baseScore x) then x else y
         end.
Proof.
  destruct l as [|y l]; simpl; [reflexivity|].
  destruct (Qle_bool (baseScore y) (baseScore x)); reflexivity.
Qed.

(** The head of the sorted candidates is the earliest candidate of the
    highest score. *)
Lemma head_sorted_by_score_reverse (cands : list EnrichmentEntry) :
  match head (sorted_by_score_reverse cands) with
  | None => cands = []
  | Some e => ∃ i, first_of_highest_score cands i e
  end.
Proof.
  induction cands as [|x xs IH]; [reflexivity|].
  unfold sorted_by_score_reverse in *. simpl foldr.
  rewrite head_insert_by_score.
  destruct (head (foldr insert_by_score [] xs)) as [y|].
  - destruct IH as (i & Hi & Hmax & Hfirst).
    destruct (Qle_bool (baseScore y) (baseScore x)) eqn:Hle.
    + apply Qle_bool_iff in Hle. exists 0%nat. repeat split.
      * intros [|j] c Hc; simpl in Hc.
        -- injection Hc as <-. apply Qle_refl.
        -- eapply Qle_trans; [eapply Hmax, Hc | exact Hle].
      * intros j c Hj. lia.
    + assert (Hlt : (baseScore x < baseScore y)%Q).
      { apply Qnot_le_lt. intros H. apply Qle_bool_iff in H. congruence. }
      exists (S i). repeat split.
      * exact Hi.
      * intros [|j] c Hc; simpl in Hc.
        -- injection Hc as <-. apply Qlt_le_weak, Hlt.
        -- eapply Hmax, Hc.
      * intros [|j] c Hj Hc; simpl in Hc.
        -- injection Hc as <-. exact Hlt.
        -- eapply Hfirst, Hc. lia.
  - subst xs. exists 0%nat. repeat split.
    + intros [|j] c Hc; simpl in Hc; [|discriminate].
      injection Hc as <-. apply Qle_refl.
    + intros j c Hj. lia.
Qed.

End SortedByScore.

Section Traversal.

Context {A B : Type} (f : A → Result B).

Lemma mapM_Ok_Forall2 (l : list A) (k : list B) :
  mapM f l = Ok k → Forall2 (λ x y, f x = Ok y) l k.
Proof.
  revert k. induction l as [|x l IH]; simpl; intros k.
  - intros [= <-]. constructor.
  - destruct (f x) as [y|e] eqn:Hx; simpl; [|discriminate].
    destruct (mapM f l) as [k'|e]; simpl; [|discriminate].
    intros [= <-]. constructor; auto.
Qed.

Lemma Forall2_mapM_Ok (l : list A) (k : list B) :
  Forall2 (λ x y, f x = Ok y) l k → mapM f l = Ok k.
Proof.
  induction 1 as [|x y l k Hx _ IH]; simpl; [reflexivity|].
  rewrite Hx. simpl. rewrite IH. reflexivity.
Qed.

End Traversal.

Section FirstOccurrences.

Implicit Types (seen : gset string) (entries : list (Package * VulnerabilityJson)).

Lemma keys_of_cons entry entries :
  keys_of (entry :: entries) = {[entry_key entry]} ∪ keys_of entries.
Proof. reflexivity. Qed.

Lemma keys_of_app entries1 entries2 :
  keys_of (entries1 ++ entries2) = keys_of entries1 ∪ keys_of entries2.
Proof.
  unfold keys_of. rewrite fmap_app. apply leibniz_equiv, list_to_set_app.
Qed.

Lemma elem_of_keys_of key entries :
  key ∈ keys_of entries ↔ ∃ entry, entry ∈ entries ∧ entry_key entry = key.
Proof.
  unfold keys_of. rewrite elem_of_list_to_set, list_elem_of_fmap.
  split; intros (entry & H1 & H2); exists entry; auto.
Qed.

Lemma first_occurrences_app seen entries1 entries2 :
  first_occurrences seen (entries1 ++ entries2)
  = first_occurrences seen entries1
    ++ first_occurrences (seen ∪ keys_of entries1) entries2.
Proof.
  revert seen. induction entries1 as [|entry entries1 IH]; intros seen; simpl.
  - f_equal. unfold keys_of. simpl. set_solver.
  - rewrite keys_of_cons. destruct (decide (entry_key entry ∈ seen)) as [Hin|Hout].
    + rewrite IH. do 2 f_equal. set_solver.
    + simpl. rewrite IH. do 3 f_equal. set_solver.
Qed.

(** Every kept entry is an entry whose key is new, and no earlier entry
    has its key. *)
Lemma first_occurrences_lookup seen entries entry :
  entry ∈ first_occurrences seen entries
  ↔ ∃ i, entries !! i = Some entry
         ∧ (entry_key entry ∉ seen)
         ∧ ∀ j e, (j < i)%nat → entries !! j = Some e → entry_key e ≠ entry_key entry.
Proof.
  revert seen. induction entries as [|x entries IH]; intros seen; simpl.
  - split; [inversion 1|]. intros (i & H & _). discriminate.
  - destruct (decide (entry_key x ∈ seen)) as [Hin|Hout].
    + rewrite IH. split.
      * intros (i & Hi & Hnew & Hfirst). exists (S i). repeat split; auto.
        intros [|j] e Hj He; simpl in He.
        -- injection He as <-. congruence.
        -- eapply Hfirst, He. lia.
      * intros ([|i] & Hi & Hnew & Hfirst); simpl in Hi.
        -- injection Hi as <-. contradiction.
        -- exists i. repeat split; auto.
           intros j e Hj He. apply (Hfirst (S j) e); [lia | exact He].
    + rewrite elem_of_cons, IH. split.
      * intros [->|(i & Hi & Hnew & Hfirst)].
        -- exists 0%nat. repeat split; auto. intros j e Hj. lia.
        -- exists (S i). repeat split; auto; [set_solver|].
           intros [|j] e Hj He; simpl in He.
           ++ injection He as <-. set_solver.
           ++ eapply Hfirst, He. lia.
      * intros ([|i] & Hi & Hnew & Hfirst); simpl in Hi.
        -- injection Hi as <-. left. reflexivity.
        -- right. exists i. repeat split; auto.
           ++ pose proof (Hfirst 0%nat x ltac:(lia) eq_refl). set_solver.
           ++ intros j e Hj He. apply (Hfirst (S j) e); [lia | exact He].
Qed.

Lemma first_occurrences_keys_NoDup seen entries :
  NoDup (entry_key <$> first_occurrences seen entries).
Proof.
  revert seen. induction entries as [|x entries IH]; intros seen; simpl.
  - constructor.
  - destruct (decide (entry_key x ∈ seen)); [apply IH|].
    rewrite fmap_cons. constructor; [|apply IH].
    rewrite list_elem_of_fmap. intros (e & Hkey & He).
    apply first_occurrences_lookup in He. destruct He as (_ & _ & Hnew & _).
    rewrite <- Hkey in Hnew. set_solver.
Qed.

(** Every key that is met and is not yet seen is kept. *)
Lemma first_occurrences_complete seen entries entry :
  entry ∈ entries → entry_key entry ∉ seen →
  ∃ kept, kept ∈ first_occurrences seen entries
          ∧ entry_key kept = entry_key entry.
Proof.
  revert seen. induction entries as [|x entries IH]; intros seen; simpl.
  - inversion 1.
  - intros Hin Hnew.
    destruct (decide (entry_key x ∈ seen)) as [Hx|Hx].
    + apply elem_of_cons in Hin. destruct Hin as [->|Hin]; [contradiction|].
      apply IH; auto.
    + destruct (decide (entry_key x = entry_key entry)) as [Heq|Hne].
      * exists x. split; [left | exact Heq].
      * apply elem_of_cons in Hin. destruct Hin as [->|Hin]; [congruence|].
        destruct (IH ({[entry_key x]} ∪ seen) Hin) as (kept & Hk & Hkey);
          [set_solver|].
        exists kept. split; [right; exact Hk | exact Hkey].
Qed.

End FirstOccurrences.

Lemma all_true_insert (dedupe_vulns : gmap string bool) (key : string) :
  all_true dedupe_vulns → all_true (<[key := true]> dedupe_vulns).
Proof.
  intros H k b. rewrite lookup_insert. case_decide; [congruence | apply H].
Qed.

Lemma seen_spec (dedupe_vulns : gmap string bool) (key : string) :
  all_true dedupe_vulns →
  default false (dedupe_vulns !! key) = bool_decide (key ∈ dom dedupe_vulns).
Proof.
  intros H. destruct (dedupe_vulns !! key) as [b|] eqn:E; simpl.
  - rewrite (H _ _ E). symmetry. apply bool_decide_eq_true.
    apply elem_of_dom. eauto.
  - symmetry. apply bool_decide_eq_false. rewrite elem_of_dom, E.
    intros [? ?]. discriminate.
Qed.

Lemma entries_of_ids_cons (report : VulnerabilityReport) (pkg : Package)
    (id : string) (ids : list string) :
  entries_of_ids report pkg (id :: ids)
  = from_option (λ vuln, [(pkg, vuln)]) [] (vulnerabilities report !! id)
    ++ entries_of_ids report pkg ids.
Proof. reflexivity. Qed.

Lemma entries_of_cons (report : VulnerabilityReport) (pkg_id : string)
    (pkg : Package) (pkgs : list (string * Package)) :
  entries_of report ((pkg_id, pkg) :: pkgs)
  = entries_of_ids report pkg (default [] (package_vulnerabilities report !! pkg_id))
    ++ entries_of report pkgs.
Proof. reflexivity. Qed.

(** The inner loop keeps the first occurrences, in order. *)
Lemma collect_pkg_vulns_spec (report : VulnerabilityReport) (pkg : Package)
    (ids : list string) (dedupe_vulns dedupe_vulns' : gmap string bool)
    (acc pkg_vulns : list VulnerabilityJson) :
  all_true dedupe_vulns →
  collect_pkg_vulns report pkg ids dedupe_vulns acc = Ok (pkg_vulns, dedupe_vulns') →
  pkg_vulns
  = acc ++ (snd <$> first_occurrences (dom dedupe_vulns) (entries_of_ids report pkg ids))
  ∧ Forall (λ entry, entry.1 = pkg)
      (first_occurrences (dom dedupe_vulns) (entries_of_ids report pkg ids))
  ∧ dom dedupe_vulns' = dom dedupe_vulns ∪ keys_of (entries_of_ids report pkg ids)
  ∧ all_true dedupe_vulns'.
Proof.
  revert dedupe_vulns acc.
  induction ids as [|id ids IH]; intros d acc Htrue.
  - simpl. intros [= <- <-]. rewrite app_nil_r. repeat split; auto.
    unfold keys_of. simpl. set_solver.
  - rewrite entries_of_ids_cons. simpl collect_pkg_vulns.
    destruct (vulnerabilities report !! id) as [vuln|]; [|discriminate].
    simpl. rewrite (seen_spec d _ Htrue).
    intros Hrec. apply IH in Hrec; [|apply all_true_insert, Htrue].
    destruct Hrec as (Hvs & Hpkg & Hdom & Htrue').
    replace (dom (<[vuln_key pkg vuln:=true]> d))
      with ({[vuln_key pkg vuln]} ∪ dom d) in * by (symmetry; apply dom_insert_L).
    rewrite keys_of_cons.
    change (entry_key (pkg, vuln)) with (vuln_key pkg vuln).
    destruct (decide (vuln_key pkg vuln ∈ dom d)) as [Hin|Hout].
    + rewrite bool_decide_eq_true_2 in Hvs by exact Hin.
      replace ({[vuln_key pkg vuln]} ∪ dom d) with (dom d) in * by set_solver.
      repeat split; auto. rewrite Hdom. set_solver.
    + rewrite bool_decide_eq_false_2 in Hvs by exact Hout.
      repeat split; auto.
      * rewrite Hvs, <- app_assoc. reflexivity.
      * rewrite Hdom. set_solver.
Qed.

Lemma out_entries_app (features1 features2 : list Feature) :
  out_entries (features1 ++ features2) = out_entries features1 ++ out_entries features2.
Proof. unfold out_entries. apply bind_app. Qed.

Section Deduplication.

Variable fetch_vuln_severity :
  VulnerabilityJson → gmap string EnrichmentEntry → string.

(** The entries of one feature are the normalized kept entries of its
    package. *)
Lemma normalized_feature (enr : gmap string EnrichmentEntry) (pkg : Package)
    (added_by : string) (kept : list (Package * VulnerabilityJson))
    (vulns : list Vulnerability) :
  Forall (λ entry, entry.1 = pkg) kept →
  mapM (to_vulnerability fetch_vuln_severity enr) (snd <$> kept) = Ok vulns →
  Forall2 (normalized_from fetch_vuln_severity enr) kept
    (out_entries [{| feat_Name := pkg_name pkg;
                     feat_VersionFormat := "";
                     feat_NamespaceName := "";
                     feat_AddedBy := added_by;
                     feat_Version := pkg_version pkg;
                     feat_Vulnerabilities := vulns |}]).
Proof.
  intros Hpkg HmapM. apply mapM_Ok_Forall2 in HmapM.
  unfold out_entries. simpl. rewrite app_nil_r.
  revert vulns HmapM. induction kept as [|entry kept IH]; intros vulns HmapM.
  - inversion HmapM. constructor.
  - rewrite fmap_cons in HmapM. inversion HmapM as [|? out ? vulns' Hout Hrest]; subst.
    apply Forall_cons in Hpkg. destruct Hpkg as [Hentry Hpkg].
    simpl. constructor.
    + unfold normalized_from. simpl. rewrite Hentry. auto.
    + apply IH; auto.
Qed.

(** [features_for] as a refinement of the specification's words: the
    output entries are the normalized first occurrences of the entries
    met, in order. *)
Lemma features_loop_spec (report : VulnerabilityReport)
    (pkgs : list (string * Package)) (dedupe_vulns : gmap string bool)
    (acc features : list Feature) (enr : gmap string EnrichmentEntry) :
  all_true dedupe_vulns →
  features_loop fetch_vuln_severity report pkgs dedupe_vulns acc = Ok features →
  (pkgs ≠ [] → enrichments_for report = Ok enr) →
  ∃ news, features = acc ++ news
          ∧ Forall2 (normalized_from fetch_vuln_severity enr)
              (first_occurrences (dom dedupe_vulns) (entries_of report pkgs))
              (out_entries news).
Proof.
  revert dedupe_vulns acc.
  induction pkgs as [|[pkg_id pkg] pkgs IH]; intros d acc Htrue.
  - simpl. intros [= <-] _. exists []. rewrite app_nil_r.
    split; [reflexivity|]. constructor.
  - rewrite entries_of_cons. simpl features_loop.
    intros Hrun Henr. specialize (Henr ltac:(discriminate)).
    destruct (pkg_env_for report pkg_id) as [pkg_env|]; simpl in Hrun; [|discriminate].
    destruct (collect_pkg_vulns report pkg _ d []) as [[pkg_vulns d']|] eqn:Hcollect;
      simpl in Hrun; [|discriminate].
    rewrite Henr in Hrun. simpl in Hrun.
    destruct (mapM _ pkg_vulns) as [vulns|] eqn:HmapM; simpl in Hrun; [|discriminate].
    apply collect_pkg_vulns_spec in Hcollect; [|exact Htrue].
    destruct Hcollect as (Hvs & Hpkg & Hdom & Htrue'). simpl in Hvs. subst pkg_vulns.
    apply IH in Hrun; [|exact Htrue'|intros _; exact Henr].
    destruct Hrun as (news & -> & Hnews).
    eexists. split; [rewrite <- app_assoc; reflexivity|].
    rewrite first_occurrences_app, out_entries_app, <- Hdom.
    apply Forall2_app; [|exact Hnews].
    eapply normalized_feature; eauto.
Qed.

Lemma features_for_spec (report : VulnerabilityReport) (features : list Feature)
    (enr : gmap string EnrichmentEntry) :
  features_for fetch_vuln_severity report = Ok features →
  (packages report ≠ [] → enrichments_for report = Ok enr) →
  Forall2 (normalized_from fetch_vuln_severity enr)
    (first_occurrences ∅ (encountered report)) (out_entries features).
Proof.
  unfold features_for. intros Hrun Henr.
  eapply features_loop_spec in Hrun; [| |exact Henr].
  - destruct Hrun as (news & -> & H). rewrite dom_empty_L in H. exact H.
  - intros key b. rewrite lookup_empty. discriminate.
Qed.

Lemma features_for_enrichments (report : VulnerabilityReport)
    (features : list Feature) :
  features_for fetch_vuln_severity report = Ok features →
  packages report ≠ [] →
  ∃ enr, enrichments_for report = Ok enr.
Proof.
  unfold features_for. destruct (packages report) as [|[pkg_id pkg] pkgs]; [congruence|].
  simpl. intros Hrun _.
  destruct (pkg_env_for report pkg_id); simpl in Hrun; [|discriminate].
  destruct (collect_pkg_vulns report pkg _ ∅ []) as [[? ?]|]; simpl in Hrun;
    [|discriminate].
  destruct (enrichments_for report) as [enr|]; [eauto | discriminate].
Qed.

End Deduplication.

Lemma mapM_total {A B : Type} (f : A → Result B) (l : list A) :
  Forall (λ x, ∃ y, f x = Ok y) l → ∃ k, mapM f l = Ok k.
Proof.
  induction 1 as [|x l (y & Hy) _ (k & Hk)]; simpl.
  - eexists. reflexivity.
  - rewrite Hy. simpl. rewrite Hk. simpl. eexists. reflexivity.
Qed.

Lemma collect_pkg_vulns_total (report : VulnerabilityReport) (pkg : Package)
    (ids : list string) (dedupe_vulns : gmap string bool)
    (acc : list VulnerabilityJson) :
  Forall (λ id, is_Some (vulnerabilities report !! id)) ids →
  ∃ pkg_vulns dedupe_vulns',
    collect_pkg_vulns report pkg ids dedupe_vulns acc = Ok (pkg_vulns, dedupe_vulns').
Proof.
  intros Hids. revert dedupe_vulns acc.
  induction Hids as [|id ids [vuln Hid] _ IH]; intros d acc; simpl.
  - eauto.
  - rewrite Hid. apply IH.
Qed.

Lemma elem_of_entries_of_ids (report : VulnerabilityReport) (pkg : Package)
    (ids : list string) (entry : Package * VulnerabilityJson) :
  entry ∈ entries_of_ids report pkg ids →
  ∃ id, id ∈ ids ∧ vulnerabilities report !! id = Some entry.2.
Proof.
  unfold entries_of_ids. rewrite list_elem_of_bind. intros (id & Hentry & Hid).
  exists id. split; [exact Hid|].
  destruct (vulnerabilities report !! id) as [vuln|]; simpl in Hentry.
  - apply list_elem_of_singleton in Hentry. subst entry. reflexivity.
  - inversion Hentry.
Qed.

Section Normalized.

Variable fetch_vuln_severity :
  VulnerabilityJson → gmap string EnrichmentEntry → string.

Lemma to_vulnerability_Ok (enr : gmap string EnrichmentEntry)
    (vuln : VulnerabilityJson) (out : Vulnerability) :
  to_vulnerability fetch_vuln_severity enr vuln = Ok out →
  vuln_name vuln = Some (Name out)
  ∧ FixedBy out = (if String.eqb (fixed_in_version vuln) "0" then ""
                   else fixed_in_version vuln)
  ∧ cvss_of out = {| Vectors := default "" (enr !! vuln_id vuln ≫= vectorString);
                     Score := baseScore <$> enr !! vuln_id vuln |}.
Proof.
  unfold to_vulnerability. destruct (vuln_name vuln); [|discriminate].
  intros [= <-]. auto.
Qed.

(** The normalizer keeps one entry per concatenated key, the first met. *)
Theorem features_for_dedupes_by_key (report : VulnerabilityReport)
    (features : list Feature) (enr : gmap string EnrichmentEntry) :
  features_for fetch_vuln_severity report = Ok features →
  (packages report ≠ [] → enrichments_for report = Ok enr) →
  ∃ kept,
    Forall2 (normalized_from fetch_vuln_severity enr) kept (out_entries features)
    ∧ NoDup (entry_key <$> kept)
    ∧ (∀ entry, entry ∈ encountered report →
         ∃ first, first ∈ kept ∧ entry_key first = entry_key entry)
    ∧ (∀ entry, entry ∈ kept ↔
         ∃ i, encountered report !! i = Some entry
              ∧ ∀ j e, (j < i)%nat → encountered report !! j = Some e →
                       entry_key e ≠ entry_key entry).
Proof.
  intros Hrun Henr. exists (first_occurrences ∅ (encountered report)).
  split; [eapply features_for_spec; eauto|].
  split; [apply first_occurrences_keys_NoDup|]. split.
  - intros entry Hin. apply first_occurrences_complete; [exact Hin | set_solver].
  - intros entry. rewrite first_occurrences_lookup. split.
    + intros (i & Hi & _ & Hfirst). eauto.
    + intros (i & Hi & Hfirst). exists i. repeat split; auto. set_solver.
Qed.

Lemma normalized_from_triple (enr : gmap string EnrichmentEntry)
    (entry : Package * VulnerabilityJson) (o : string * string * Vulnerability) :
  normalized_from fetch_vuln_severity enr entry o →
  out_triple o = entry_triple entry.
Proof.
  intros (Hname & Hver & Hout). apply to_vulnerability_Ok in Hout.
  destruct Hout as (Hvname & _).
  unfold out_triple, entry_triple. rewrite Hname, Hver, Hvname. reflexivity.
Qed.

Lemma normalized_triples (enr : gmap string EnrichmentEntry)
    (kept : list (Package * VulnerabilityJson))
    (outs : list (string * string * Vulnerability)) :
  Forall2 (normalized_from fetch_vuln_severity enr) kept outs →
  out_triple <$> outs = entry_triple <$> kept.
Proof.
  induction 1 as [|entry o kept outs H _ IH]; [reflexivity|].
  rewrite !fmap_cons, IH, (normalized_from_triple _ _ _ H). reflexivity.
Qed.

(** The output never holds two entries of the same (name, version,
    vulnerability name); and on a report without key collisions every
    triple met is in the output, normalized from the first entry met with
    that triple. *)
Theorem features_for_dedupes_by_triple (report : VulnerabilityReport)
    (features : list Feature) (enr : gmap string EnrichmentEntry) :
  features_for fetch_vuln_severity report = Ok features →
  (packages report ≠ [] → enrichments_for report = Ok enr) →
  NoDup (out_triple <$> out_entries features)
  ∧ (collision_free report →
     ∀ entry, entry ∈ encountered report →
       ∃ first i o,
         encountered report !! i = Some first
         ∧ entry_triple first = entry_triple entry
         ∧ (∀ j e, (j < i)%nat → encountered report !! j = Some e →
                   entry_triple e ≠ entry_triple first)
         ∧ o ∈ out_entries features
         ∧ normalized_from fetch_vuln_severity enr first o
         ∧ out_triple o = entry_triple entry).
Proof.
  intros Hrun Henr.
  destruct (features_for_dedupes_by_key _ _ _ Hrun Henr)
    as (kept & Hall & Hnodup & Hcomplete & Hkept).
  split.
  - rewrite (normalized_triples _ _ _ Hall).
    apply (NoDup_fmap_1 key_of_triple). rewrite <- list_fmap_compose. exact Hnodup.
  - intros Hfree entry Hin.
    destruct (Hcomplete entry Hin) as (first & Hfirst & Hkey).
    pose proof Hfirst as Hidx. apply Hkept in Hidx. destruct Hidx as (i & Hi & Hearlier).
    apply list_elem_of_lookup in Hfirst. destruct Hfirst as (k & Hk).
    destruct (Forall2_lookup_l _ _ _ _ _ Hall Hk) as (o & Ho & Hnorm).
    assert (Htriple : entry_triple first = entry_triple entry).
    { apply Hfree; [eapply list_elem_of_lookup_2, Hi | exact Hin | exact Hkey]. }
    exists first, i, o. repeat split; auto.
    + intros j e Hj He Heq. apply (Hearlier j e Hj He).
      change (key_of_triple (entry_triple e) = key_of_triple (entry_triple first)).
      rewrite Heq. reflexivity.
    + eapply list_elem_of_lookup_2, Ho.
    + destruct Hnorm as (H & _). exact H.
    + destruct Hnorm as (_ & H & _). exact H.
    + destruct Hnorm as (_ & _ & H). exact H.
    + rewrite <- Htriple. eapply normalized_from_triple, Hnorm.
Qed.

Lemma features_loop_total (report : VulnerabilityReport)
    (pkgs : list (string * Package)) (dedupe_vulns : gmap string bool)
    (acc : list Feature) :
  all_true dedupe_vulns →
  (∀ pkg_id pkg, (pkg_id, pkg) ∈ pkgs →
     (∃ env envs, environments report !! pkg_id = Some (env :: envs))
     ∧ ∀ id, id ∈ default [] (package_vulnerabilities report !! pkg_id) →
             ∃ vuln, vulnerabilities report !! id = Some vuln
                     ∧ is_Some (vuln_name vuln)) →
  (∃ enr, enrichments_for report = Ok enr) →
  ∃ features,
    features_loop fetch_vuln_severity report pkgs dedupe_vulns acc = Ok features.
Proof.
  intros Htrue Hpkgs (enr & Henr). revert dedupe_vulns acc Htrue.
  induction pkgs as [|[pkg_id pkg] pkgs IH]; intros d acc Htrue; simpl.
  - eauto.
  - destruct (Hpkgs pkg_id pkg ltac:(left)) as ((env & envs & Henv) & Hids).
    unfold pkg_env_for. rewrite Henv. simpl.
    destruct (collect_pkg_vulns_total report pkg
                (default [] (package_vulnerabilities report !! pkg_id)) d [])
      as (pkg_vulns & d' & Hcollect).
    { apply Forall_forall. intros id Hid.
      destruct (Hids id Hid) as (vuln & -> & _). eauto. }
    rewrite Hcollect. simpl. rewrite Henr. simpl.
    destruct (collect_pkg_vulns_spec _ _ _ _ _ _ _ Htrue Hcollect)
      as (Hvs & _ & _ & Htrue').
    destruct (mapM_total (to_vulnerability fetch_vuln_severity enr) pkg_vulns)
      as (vulns & Hvulns).
    { apply Forall_forall. intros vuln Hvuln. rewrite Hvs in Hvuln. simpl in Hvuln.
      apply list_elem_of_fmap in Hvuln. destruct Hvuln as (entry & -> & Hentry).
      apply first_occurrences_lookup in Hentry. destruct Hentry as (i & Hi & _).
      apply list_elem_of_lookup_2, elem_of_entries_of_ids in Hi.
      destruct Hi as (id & Hid & Hlookup).
      destruct (Hids id Hid) as (vuln & Hvuln & name & Hname).
      assert (vuln = entry.2) as <- by congruence.
      unfold to_vulnerability. rewrite Hname. eauto. }
    rewrite Hvulns. simpl. apply IH; [|exact Htrue'].
    intros pkg_id' pkg' Hin. apply (Hpkgs pkg_id' pkg'). right. exact Hin.
Qed.

(** The normalizer returns on every well-formed report. *)
Theorem features_for_total (report : VulnerabilityReport) :
  well_formed report →
  ∃ features, features_for fetch_vuln_severity report = Ok features.
Proof.
  intros (Hpkgs & Henr). apply features_loop_total; auto.
  intros key b. rewrite lookup_empty. discriminate.
Qed.

(** C6: with enrichments present, every vulnerability of the output gets
    its CVSS data from the first document of the first enrichment source
    alone: nothing when that document has no candidates for the
    vulnerability id, and otherwise the candidate of the highest base
    score, the earliest one among equals. *)
Theorem features_for_enrichment_choice (report : VulnerabilityReport)
    (features : list Feature) (src : string)
    (doc : gmap string (list EnrichmentEntry))
    (docs : list (gmap string (list EnrichmentEntry)))
    (others : list (string * list (gmap string (list EnrichmentEntry))))
    (o : string * string * Vulnerability) :
  enrichments report = Some ((src, doc :: docs) :: others) →
  features_for fetch_vuln_severity report = Ok features →
  o ∈ out_entries features →
  ∃ entry enr,
    entry ∈ encountered report
    ∧ enrichments_for report = Ok enr
    ∧ normalized_from fetch_vuln_severity enr entry o
    ∧ match doc !! vuln_id entry.2 with
      | None => cvss_of o.2 = {| Vectors := ""; Score := None |}
      | Some cands =>
          ∃ i e, first_of_highest_score cands i e
                 ∧ cvss_of o.2 = {| Vectors := default "" (vectorString e);
                                    Score := Some (baseScore e) |}
      end.
Proof.
  intros Henr Hrun Ho.
  assert (Hpkgs : packages report ≠ []).
  { intros Hnil. unfold features_for in Hrun. rewrite Hnil in Hrun.
    injection Hrun as <-. inversion Ho. }
  destruct (features_for_enrichments _ _ _ Hrun Hpkgs) as (enr & Hok).
  pose proof (features_for_spec _ _ _ enr Hrun (λ _, Hok)) as Hall.
  apply list_elem_of_lookup in Ho. destruct Ho as (k & Hk).
  destruct (Forall2_lookup_r _ _ _ _ _ Hall Hk) as (entry & Hentry & Hnorm).
  apply list_elem_of_lookup_2, first_occurrences_lookup in Hentry.
  destruct Hentry as (i & Hi & _).
  pose proof Hnorm as (_ & _ & Hout).
  apply to_vulnerability_Ok in Hout. destruct Hout as (_ & _ & Hcvss).
  exists entry, enr. split; [eapply list_elem_of_lookup_2, Hi|].
  split; [exact Hok|]. split; [exact Hnorm|].
  unfold enrichments_for in Hok. rewrite Henr in Hok.
  destruct (decide (map_Forall (λ _ val, val ≠ []) doc)) as [Hfull|]; [|discriminate].
  injection Hok as <-. rewrite Hcvss, lookup_omap.
  destruct (doc !! vuln_id entry.2) as [cands|] eqn:Hcands; [|reflexivity].
  simpl. pose proof (head_sorted_by_score_reverse cands) as Hhead.
  destruct (head (sorted_by_score_reverse cands)) as [e|].
  - destruct Hhead as (j & Hj). exists j, e. split; [exact Hj | reflexivity].
  - exfalso. eapply Hfull; eauto.
Qed.

End Normalized.

(** * The normalizer on concrete reports *)

(** Package "openssl" at "1.1.1" with CVE-X, fixed in "0", and candidates
    scored 7.5 and 9.0: one feature with one vulnerability, no fix, and the
    vector of the 9.0 candidate; the second source is not read. *)
Example features_for_scored_report :
  out_entries <$> features_for example_severity scored_report = Ok [scored_output].
Proof. vm_compute. reflexivity. Qed.

(** C6, witness: the report with candidates scored 7.5 and 9.0. *)
Lemma features_for_enrichment_choice_witness :
  ∃ entry enr,
    entry ∈ encountered scored_report
    ∧ enrichments_for scored_report = Ok enr
    ∧ normalized_from example_severity enr entry scored_output
    ∧ match ({[ "v1" := [{| baseScore := 7.5; vectorString := Some "CVSS:3.1/AV:L" |};
                         {| baseScore := 9.0; vectorString := Some "CVSS:3.1/AV:N" |}] ]}
               : gmap string (list EnrichmentEntry)) !! vuln_id entry.2 with
      | None => cvss_of scored_output.2 = {| Vectors := ""; Score := None |}
      | Some cands =>
          ∃ i e, first_of_highest_score cands i e
                 ∧ cvss_of scored_output.2
                   = {| Vectors := default "" (vectorString e);
                        Score := Some (baseScore e) |}
      end.
Proof.
  eapply (features_for_enrichment_choice example_severity scored_report _
            "enricher=clair.cvss" _ [] _ scored_output).
  - reflexivity.
  - vm_compute. reflexivity.
  - left.
Defined.

(** One package with CVE-X reported from two repositories: one entry, the
    first. *)
Example features_for_duplicate_report :
  (λ fs : list Feature,
     (λ o : string * string * Vulnerability,
        (out_triple o, RepoName (vuln_Metadata o.2))) <$> out_entries fs)
    <$> features_for example_severity duplicate_report
  = Ok [(("foo", "bar_1.0", "CVE-X"), Some "repo-a")].
Proof. vm_compute. reflexivity. Qed.

(** C5 fails on the code: the two entries of package "foo" at "bar_1.0"
    have the same (name, version, vulnerability name), and the output has no
    entry for it, because "foo_bar" at "1.0" was met first and has the same
    concatenated key. *)
Theorem features_for_key_collision_drops_vulnerability :
  (entry_triple <$> encountered collision_report)
  = [("foo_bar", "1.0", "CVE-X"); ("foo", "bar_1.0", "CVE-X"); ("foo", "bar_1.0", "CVE-X")]
  ∧ (entry_key <$> encountered collision_report)
    = ["foo_bar_1.0_CVE-X"; "foo_bar_1.0_CVE-X"; "foo_bar_1.0_CVE-X"]
  ∧ (λ fs : list Feature, out_triple <$> out_entries fs)
      <$> features_for example_severity collision_report
    = Ok [("foo_bar", "1.0", "CVE-X")]
  ∧ (λ fs : list Feature,
       (λ f : Feature,
          (feat_Name f, feat_Version f, length (feat_Vulnerabilities f))) <$> fs)
      <$> features_for example_severity collision_report
    = Ok [("foo_bar", "1.0", 1%nat); ("foo", "bar_1.0", 0%nat)].
Proof. repeat split; vm_compute; reflexivity. Qed.

(** * Further properties of the scanner *)

Section Effects.

Variable env : Collaborators.

Lemma touches_only_refl (ids : gset Z) (abts : gset nat) (w : World) :
  touches_only ids abts w w.
Proof. split; [|split; [|split]]; [tauto | set_solver..| reflexivity]. Qed.

Lemma touches_only_trans (ids : gset Z) (abts : gset nat) (w1 w2 w3 : World) :
  touches_only ids abts w1 w2 → touches_only ids abts w2 w3 →
  touches_only ids abts w1 w3.
Proof.
  intros (Hrows1 & Hup1 & Hdown1 & Hlog1) (Hrows2 & Hup2 & Hdown2 & Hlog2).
  split; [|split; [|split]].
  - intros row Hrow. rewrite (Hrows2 row Hrow). apply Hrows1, Hrow.
  - set_solver.
  - set_solver.
  - etrans; eauto.
Qed.

Lemma touches_only_mono (ids ids' : gset Z) (abts abts' : gset nat) (w w' : World) :
  ids ⊆ ids' → abts ⊆ abts' →
  touches_only ids abts w w' → touches_only ids' abts' w w'.
Proof.
  intros Hids Habts (Hrows & Hup & Hdown & Hlog).
  split; [|split; [|split]].
  - intros row Hrow. apply Hrows. set_solver.
  - exact Hup.
  - set_solver.
  - exact Hlog.
Qed.

Lemma preserves_bind {A B : Type} (P : World → World → Prop)
    (m : M A) (f : A → M B) :
  (∀ w1 w2 w3, P w1 w2 → P w2 w3 → P w1 w3) →
  preserves P m → (∀ a, preserves P (f a)) → preserves P (m ≫= f).
Proof.
  intros Htrans Hm Hf w r w'. rewrite bind_run.
  destruct (m w) as [[a|e] w1] eqn:Hrun.
  - intros Hrest. eapply Htrans; [eapply Hm, Hrun | eapply Hf, Hrest].
  - intros [= <- <-]. eapply Hm, Hrun.
Qed.

Lemma preserves_logger (ids : gset Z) (abts : gset nat) (e : LogEntry) :
  preserves (touches_only ids abts) (logger e).
Proof.
  intros w r w' [= <- <-].
  split; [|split; [|split]]; simpl; [tauto | set_solver..|].
  apply prefix_app_r. reflexivity.
Qed.

Lemma preserves_abt_set (ids : gset Z) (abts : gset nat) (abt : nat) :
  abt ∈ abts → preserves (touches_only ids abts) (abt_set abt).
Proof.
  intros Habt w r w' [= <- <-].
  split; [|split; [|split]]; simpl; [tauto | set_solver..| reflexivity].
Qed.

Lemma preserves_db_transaction (ids : gset Z) (abts : gset nat) (manifest : Z)
    (body : list ManifestSecurityStatus → list ManifestSecurityStatus) :
  (∀ table row, mss_manifest row ∉ ids → row ∈ body table ↔ row ∈ table) →
  preserves (touches_only ids abts) (db_transaction env manifest body).
Proof.
  intros Hbody w r w'. rewrite db_transaction_run.
  destruct (db_commits env manifest); intros [= <- <-].
  - split; [|split; [|split]]; simpl; [exact (Hbody _) | set_solver..| reflexivity].
  - apply touches_only_refl.
Qed.

Lemma preserves_mark_manifest_unsupported (ids : gset Z) (abts : gset nat)
    (candidate : Manifest) :
  manifest_id candidate ∈ ids →
  preserves (touches_only ids abts) (mark_manifest_unsupported env candidate).
Proof.
  intros Hid. apply preserves_db_transaction. intros table row Hrow.
  rewrite elem_of_app, list_elem_of_filter, list_elem_of_singleton. split.
  - intros [[_ H]| ->]; [exact H|]. simpl in Hrow. contradiction.
  - intros H. left. split; [|exact H]. intros [Heq _]. rewrite Heq in Hrow.
    contradiction.
Qed.

Lemma preserves_save_status (ids : gset Z) (abts : gset nat)
    (candidate : Manifest) (report : IndexReport) (st : string)
    (status : IndexStatus) :
  manifest_id candidate ∈ ids →
  preserves (touches_only ids abts) (save_status env candidate report st status).
Proof.
  intros Hid. apply preserves_db_transaction. intros table row Hrow.
  rewrite elem_of_app, list_elem_of_filter, list_elem_of_singleton. split.
  - intros [[_ H]| ->]; [exact H|]. simpl in Hrow. contradiction.
  - intros H. left. split; [|exact H]. intros Heq. rewrite Heq in Hrow.
    contradiction.
Qed.

Lemma preserves_should_skip_indexing (ids : gset Z) (abts : gset nat)
    (thr : Z) (candidate : Manifest) :
  preserves (touches_only ids abts) (should_skip_indexing thr candidate).
Proof.
  intros w r w' Hrun.
  destruct (should_skip_indexing_run thr candidate w) as (skip & Hskip & _).
  rewrite Hskip in Hrun. injection Hrun as <- <-. apply touches_only_refl.
Qed.

Lemma preserves_index_candidate (thr : Z) (candidate : Manifest) (abt n : nat) :
  preserves (touches_only {[manifest_id candidate]} {[abt]})
    (index_candidate env thr (candidate, abt, n)).
Proof.
  pose proof (touches_only_trans {[manifest_id candidate]} {[abt]}) as Htrans.
  assert (Hid : manifest_id candidate ∈ ({[manifest_id candidate]} : gset Z))
    by set_solver.
  assert (Hmark := preserves_mark_manifest_unsupported _ {[abt]} candidate Hid).
  unfold index_candidate.
  destruct (is_manifest_list candidate); [exact Hmark|].
  assert (Hnone : preserves (touches_only {[manifest_id candidate]} {[abt]})
                    (logger (warning_no_layers (manifest_id candidate));;
                     mark_manifest_unsupported env candidate)).
  { apply preserves_bind; auto using preserves_logger. }
  destruct (list_manifest_layers env candidate) as [[|layer layers]|]; auto.
  apply preserves_bind; [exact Htrans | apply preserves_should_skip_indexing|].
  intros [|].
  - apply preserves_bind; auto using preserves_logger.
    intros _. apply preserves_abt_set. set_solver.
  - apply preserves_bind; auto using preserves_logger. intros _.
    destruct (secscan_index env candidate (layer :: layers)) as [report st| |].
    + destruct (String.eqb (report_state report) Index_Finished);
        [apply preserves_save_status, Hid|].
      destruct (String.eqb (report_state report) Index_Error);
        [apply preserves_save_status, Hid|].
      intros w r w' [= <- <-]. apply touches_only_refl.
    + apply preserves_bind; auto using preserves_logger.
    + apply preserves_logger.
Qed.

Lemma index_cons (item : Item) (rest : list Item) (thr : Z) (w : World) :
  _index env (item :: rest) thr w =
  match index_candidate env thr item w with
  | (Ok _, w1) => _index env rest thr w1
  | (Raise e, w1) => (Raise e, w1)
  end.
Proof. reflexivity. Qed.

(** X1: whatever a pass does and however it ends, it changes status rows
    of the manifests it was handed only, it sets abort events of the
    windows it was handed only and clears none, and it only adds to the end
    of the log. *)
Theorem index_touches_only (iterator : list Item) (thr : Z) (w : World) :
  touches_only (manifests_of iterator) (abts_of iterator)
    w (_index env iterator thr w).2.
Proof.
  revert w. induction iterator as [|[[candidate abt] n] rest IH]; intros w.
  - apply touches_only_refl.
  - rewrite index_cons.
    destruct (index_candidate env thr (candidate, abt, n) w) as [[[]|e] w1] eqn:Hstep;
      apply preserves_index_candidate in Hstep.
    + apply (touches_only_trans _ _ w w1).
      * eapply touches_only_mono; [| |exact Hstep];
          unfold manifests_of, abts_of; simpl; set_solver.
      * eapply touches_only_mono; [| |exact (IH w1)];
          unfold manifests_of, abts_of; simpl; set_solver.
    + eapply touches_only_mono; [| |exact Hstep];
        unfold manifests_of, abts_of; simpl; set_solver.
Qed.

End Effects.

Section Tables.

Context {A : Type} (P : A → Prop) `{!∀ x, Decision (P x)}.

Lemma filter_filter_not (l : list A) :
  filter P (filter (λ x, ¬ P x) l) = [].
Proof.
  induction l as [|x l IH]; [reflexivity|].
  destruct (decide (P x)) as [Hx|Hx].
  - rewrite (filter_cons_False (λ x, ¬ P x)) by tauto. exact IH.
  - rewrite (filter_cons_True (λ x, ¬ P x)) by exact Hx.
    rewrite filter_cons_False by exact Hx. exact IH.
Qed.

End Tables.

Section Candidates.

Variable env : Collaborators.

Lemma mark_manifest_unsupported_run (candidate : Manifest) (w : World) :
  mark_manifest_unsupported env candidate w =
  if db_commits env (manifest_id candidate)
  then (Ok tt,
        {| status_table :=
             filter (λ row, ¬ (mss_manifest row = manifest_id candidate
                               ∧ mss_repository row = manifest_repository candidate))
               (status_table w)
             ++ [unsupported_status_row env candidate];
           abort_flags := abort_flags w;
           log := log w |})
  else (Raise DatabaseError, w).
Proof. reflexivity. Qed.

Lemma mark_manifest_unsupported_rows (candidate : Manifest) (w w' : World) :
  mark_manifest_unsupported env candidate w = (Ok tt, w') →
  rows_of candidate (status_table w') = [unsupported_status_row env candidate]
  ∧ abort_flags w' = abort_flags w
  ∧ log w' = log w.
Proof.
  rewrite mark_manifest_unsupported_run.
  destruct (db_commits env (manifest_id candidate)); [|discriminate].
  intros [= <-]. simpl. repeat split.
  unfold rows_of. rewrite filter_app, filter_filter_not.
  rewrite filter_cons_True by (split; reflexivity). reflexivity.
Qed.

(** X2: a manifest list, and a manifest whose layers cannot be listed or
    are none, is never submitted to the engine: with a store that commits,
    its status row becomes the one [MANIFEST_UNSUPPORTED] row with indexer
    hash "none", whatever row it had and whether or not another worker has
    claimed it; the abort events stay as they were and the log gains at
    most the warning. *)
Theorem index_unindexable_marks_unsupported
    (thr : Z) (candidate : Manifest) (abt n : nat) (w : World) :
  is_manifest_list candidate = true
  ∨ list_manifest_layers env candidate = None
  ∨ list_manifest_layers env candidate = Some [] →
  db_commits env (manifest_id candidate) = true →
  ∃ w', index_candidate env thr (candidate, abt, n) w = (Ok tt, w')
        ∧ rows_of candidate (status_table w') = [unsupported_status_row env candidate]
        ∧ abort_flags w' = abort_flags w
        ∧ (log w' = log w
           ∨ log w' = log w ++ [warning_no_layers (manifest_id candidate)]).
Proof.
  intros Hwhy Hdb. unfold index_candidate.
  destruct (is_manifest_list candidate) eqn:Hlist.
  - destruct (mark_manifest_unsupported env candidate w) as [r w'] eqn:Hmark.
    pose proof Hmark as Hrun. rewrite mark_manifest_unsupported_run, Hdb in Hrun.
    injection Hrun as <- _.
    destruct (mark_manifest_unsupported_rows _ _ _ Hmark) as (Hrows & Hflags & Hlog).
    exists w'. auto.
  - assert (Hstep : (logger (warning_no_layers (manifest_id candidate));;
                     mark_manifest_unsupported env candidate) w
                    = mark_manifest_unsupported env candidate
                        (logged (warning_no_layers (manifest_id candidate)) w))
      by reflexivity.
    destruct (mark_manifest_unsupported env candidate
                (logged (warning_no_layers (manifest_id candidate)) w))
      as [r w'] eqn:Hmark.
    pose proof Hmark as Hrun. rewrite mark_manifest_unsupported_run, Hdb in Hrun.
    injection Hrun as <- _.
    destruct (mark_manifest_unsupported_rows _ _ _ Hmark) as (Hrows & Hflags & Hlog).
    destruct Hwhy as [?|[Hnone|Hnone]]; [discriminate| |];
      rewrite Hnone, Hstep; exists w'; auto.
Qed.

Lemma index_candidate_submitted (thr : Z) (candidate : Manifest) (abt n : nat)
    (w : World) (layers : list string) :
  submitted env thr candidate w layers →
  index_candidate env thr (candidate, abt, n) w =
  match secscan_index env candidate layers with
  | InvalidContentSent =>
      mark_manifest_unsupported env candidate;;
      logger exception_invalid_content
  | IndexRequestFailure => logger exception_api_error
  | Indexed report state =>
      if String.eqb (report_state report) Index_Finished
      then save_status env candidate report state COMPLETED
      else if String.eqb (report_state report) Index_Error
      then save_status env candidate report state FAILED
      else mret tt
  end (logged (debug_indexing (manifest_id candidate)) w).
Proof.
  intros (Hlist & Hlayers & Hne & Hfree).
  destruct (should_skip_indexing_run thr candidate w) as (skip & Hrun & Hskip).
  destruct skip; [exfalso; apply Hfree, Hskip; reflexivity|].
  unfold index_candidate. rewrite Hlist, Hlayers.
  destruct layers as [|layer layers]; [congruence|].
  erewrite bind_ok by exact Hrun. cbv beta iota.
  erewrite bind_ok by reflexivity. reflexivity.
Qed.

Lemma index_candidate_skipped (thr : Z) (candidate : Manifest) (abt n : nat)
    (w : World) (layer : string) (layers : list string) :
  is_manifest_list candidate = false →
  list_manifest_layers env candidate = Some (layer :: layers) →
  claimed_by_another_worker thr candidate w →
  index_candidate env thr (candidate, abt, n) w
  = abt_set abt (logged debug_preempted w).
Proof.
  intros Hlist Hlayers Hclaimed.
  destruct (should_skip_indexing_run thr candidate w) as (skip & Hrun & Hskip).
  destruct Hskip as [_ Hskip]. rewrite (Hskip Hclaimed) in Hrun.
  unfold index_candidate. rewrite Hlist, Hlayers.
  erewrite bind_ok by exact Hrun. reflexivity.
Qed.

(** X3: when the engine's answer to a submission is a request failure,
    nothing is written, no abort event is set and nothing is raised, also
    with a store that would refuse the write: only the log grows, by the
    submission and the failure. The candidate stays as it was for a later
    pass. *)
Theorem index_request_failure_writes_nothing
    (thr : Z) (candidate : Manifest) (abt n : nat) (w : World)
    (layers : list string) :
  submitted env thr candidate w layers →
  secscan_index env candidate layers = IndexRequestFailure →
  index_candidate env thr (candidate, abt, n) w
  = (Ok tt, {| status_table := status_table w;
               abort_flags := abort_flags w;
               log := log w ++ [debug_indexing (manifest_id candidate);
                                exception_api_error] |}).
Proof.
  intros Hsub Hfail. rewrite (index_candidate_submitted _ _ _ _ _ _ Hsub), Hfail.
  unfold logger, logged. simpl. rewrite <- app_assoc. reflexivity.
Qed.

(** X4: when the engine rejects the submitted content as invalid, the
    candidate is marked unsupported: with a store that commits, its status
    row becomes the one [MANIFEST_UNSUPPORTED] row and the log records the
    submission and the rejection; with a store that refuses, the database
    error is raised and the table stays as it was. *)
Theorem index_invalid_content_marks_unsupported
    (thr : Z) (candidate : Manifest) (abt n : nat) (w : World)
    (layers : list string) :
  submitted env thr candidate w layers →
  secscan_index env candidate layers = InvalidContentSent →
  if db_commits env (manifest_id candidate)
  then ∃ w', index_candidate env thr (candidate, abt, n) w = (Ok tt, w')
             ∧ rows_of candidate (status_table w')
               = [unsupported_status_row env candidate]
             ∧ abort_flags w' = abort_flags w
             ∧ log w' = log w ++ [debug_indexing (manifest_id candidate);
                                  exception_invalid_content]
  else index_candidate env thr (candidate, abt, n) w
       = (Raise DatabaseError, logged (debug_indexing (manifest_id candidate)) w).
Proof.
  intros Hsub Hbad. rewrite (index_candidate_submitted _ _ _ _ _ _ Hsub), Hbad.
  rewrite bind_run.
  destruct (mark_manifest_unsupported env candidate
              (logged (debug_indexing (manifest_id candidate)) w))
    as [r w1] eqn:Hmark.
  pose proof Hmark as Hrun. rewrite mark_manifest_unsupported_run in Hrun.
  destruct (db_commits env (manifest_id candidate)).
  - injection Hrun as <- _.
    destruct (mark_manifest_unsupported_rows _ _ _ Hmark) as (Hrows & Hflags & Hlog).
    eexists. split; [reflexivity|]. simpl.
    rewrite Hrows, Hflags, Hlog. simpl. rewrite <- app_assoc. auto.
  - injection Hrun as <- <-. reflexivity.
Qed.

(** X5: a pass over two sequences of candidates one after the other is
    the pass over the first followed, if it did not raise, by the pass over
    the second from the world the first left; if the first raises, no
    candidate of the second is looked at. *)
Theorem index_app (iterator1 iterator2 : list Item) (thr : Z) (w : World) :
  _index env (iterator1 ++ iterator2) thr w =
  match _index env iterator1 thr w with
  | (Ok _, w1) => _index env iterator2 thr w1
  | (Raise e, w1) => (Raise e, w1)
  end.
Proof.
  revert w. induction iterator1 as [|item rest IH]; intros w; [reflexivity|].
  rewrite <- app_comm_cons, !index_cons.
  destruct (index_candidate env thr item w) as [[[]|e] w1]; [apply IH | reflexivity].
Qed.

Lemma save_status_run (candidate : Manifest) (report : IndexReport)
    (st : string) (status : IndexStatus) (w : World) :
  save_status env candidate report st status w =
  if db_commits env (manifest_id candidate)
  then (Ok tt,
        {| status_table :=
             filter (λ row, mss_manifest row ≠ manifest_id candidate) (status_table w)
             ++ [status_row env candidate report st status];
           abort_flags := abort_flags w;
           log := log w |})
  else (Raise DatabaseError, w).
Proof. reflexivity. Qed.

(** X6: a candidate of the never-indexed query that has just been indexed
    (its report was finished or in error, and the row was written) is taken
    as claimed when the pass meets it again: the second visit sets the
    abort event of its window, does not submit it again and leaves the
    status table as the first visit left it. *)
Theorem index_again_is_preempted
    (thr : Z) (candidate : Manifest) (abt n : nat) (w w1 : World)
    (layers : list string) (report : IndexReport) (st : string) :
  submitted env thr candidate w layers →
  manifestsecuritystatus candidate = None →
  secscan_index env candidate layers = Indexed report st →
  report_state report = Index_Finished ∨ report_state report = Index_Error →
  index_candidate env thr (candidate, abt, n) w = (Ok tt, w1) →
  index_candidate env thr (candidate, abt, n) w1
  = (Ok tt, {| status_table := status_table w1;
               abort_flags := {[abt]} ∪ abort_flags w1;
               log := log w1 ++ [debug_preempted] |}).
Proof.
  intros Hsub Hnone Hindex Hstate Hfirst.
  pose proof Hsub as (Hlist & Hlayers & Hne & _).
  destruct layers as [|layer layers]; [congruence|].
  rewrite (index_candidate_submitted _ _ _ _ _ _ Hsub), Hindex in Hfirst.
  assert (Hsave : ∃ status,
             save_status env candidate report st status
               (logged (debug_indexing (manifest_id candidate)) w) = (Ok tt, w1)).
  { destruct Hstate as [Hs|Hs]; rewrite Hs in Hfirst; [exists COMPLETED|exists FAILED];
      exact Hfirst. }
  destruct Hsave as (status & Hsave).
  rewrite save_status_run in Hsave.
  destruct (db_commits env (manifest_id candidate)); [|discriminate].
  injection Hsave as <-.
  rewrite (index_candidate_skipped thr candidate abt n _ layer layers Hlist Hlayers);
    [reflexivity|].
  right. split; [exact Hnone|].
  exists (status_row env candidate report st status). simpl.
  split; [|reflexivity]. apply elem_of_app. right. left.
Qed.

(** X8: the token [perform_indexing] returns resumes past the end: a call
    with that token, while the [Manifest] table has not grown, returns no
    token and leaves the world untouched, whatever the batch size. *)
Theorem perform_indexing_resumes_past_the_end
    (start_token : option ScanToken) (batch_size : option Z) (w : World)
    (token : ScanToken) :
  (perform_indexing env start_token batch_size w).1 = Ok (Some token) →
  ∀ batch_size' w', perform_indexing env (Some token) batch_size' w' = (Ok None, w').
Proof.
  unfold perform_indexing.
  destruct (secscan_state env) as [indexer_state|msg]; [|discriminate].
  rewrite !bind_run. unfold lift.
  destruct (config_reindex_threshold env) as [thr|e]; [|discriminate].
  destruct (scalar_max (manifest_ids env)) as [max_id|].
  2: { destruct (match start_token with
                 | Some t => Some (min_id t)
                 | None => scalar_min (manifest_ids env)
                 end); discriminate. }
  destruct (match start_token with
            | Some t => Some (min_id t)
            | None => scalar_min (manifest_ids env)
            end) as [start_index|]; [|discriminate].
  destruct (start_index >? max_id); [discriminate|].
  rewrite bind_run.
  match goal with
  | |- context [_index env ?it ?thr w] => destruct (_index env it thr w) as [[[]|e] w1]
  end; [|discriminate].
  simpl. intros [= <-] batch_size' w'. simpl.
  replace (max_id + 1 >? max_id) with true by (symmetry; apply Z.gtb_gt; lia).
  reflexivity.
Qed.

(** X9: when [perform_indexing] returns no token it has done nothing: no
    status row written, no abort event set, no log entry. *)
Theorem perform_indexing_none_is_untouched
    (start_token : option ScanToken) (batch_size : option Z) (w : World) :
  (perform_indexing env start_token batch_size w).1 = Ok None →
  (perform_indexing env start_token batch_size w).2 = w.
Proof.
  unfold perform_indexing.
  destruct (secscan_state env) as [indexer_state|msg]; [|reflexivity].
  rewrite bind_run. unfold lift.
  destruct (config_reindex_threshold env) as [thr|e]; [|discriminate].
  destruct (scalar_max (manifest_ids env)) as [max_id|].
  2: { destruct (match start_token with
                 | Some t => Some (min_id t)
                 | None => scalar_min (manifest_ids env)
                 end); reflexivity. }
  destruct (match start_token with
            | Some t => Some (min_id t)
            | None => scalar_min (manifest_ids env)
            end) as [start_index|]; [|reflexivity].
  destruct (start_index >? max_id); [reflexivity|].
  rewrite bind_run.
  match goal with
  | |- context [_index env ?it ?thr w] => destruct (_index env it thr w) as [[[]|e] w1]
  end; discriminate.
Qed.

(** X10: [load_security_information] only reads: whatever it is asked and
    whatever it answers or raises, the status table, the abort events and
    the log are as before. *)
Theorem load_security_information_reads_only
    (manifest_or_legacy_image : ManifestOrLegacyImage) (w : World) :
  (load_security_information env manifest_or_legacy_image w).2 = w.
Proof.
  unfold load_security_information.
  destruct manifest_or_legacy_image as [manifest|]; [|reflexivity].
  erewrite bind_ok by reflexivity.
  destruct (manifestsecuritystatus_set manifest (status_table w)) as [|status rows];
    [reflexivity|].
  destruct (index_status status); try reflexivity.
  destruct (secscan_vulnerability_report env (manifest_digest manifest))
    as [[report|]|msg]; try reflexivity.
  rewrite bind_run. unfold lift.
  destruct (features_for (fetch_vuln_severity env) report); reflexivity.
Qed.

(** X11: [load_security_information] answers with data exactly when it is
    asked about a manifest whose first stored status row is [COMPLETED],
    the engine has a report for its digest and the normalizer returns on
    that report; the data is then the layer named by the report's manifest
    hash, at version 4, holding the normalized features. *)
Theorem load_security_information_data
    (manifest_or_legacy_image : ManifestOrLegacyImage) (w : World)
    (info : SecurityInformation) :
  (load_security_information env manifest_or_legacy_image w).1 = Ok (for_data info)
  ↔ ∃ manifest status rows report features,
      manifest_or_legacy_image = ManifestDataType manifest
      ∧ manifestsecuritystatus_set manifest (status_table w) = status :: rows
      ∧ index_status status = COMPLETED
      ∧ secscan_vulnerability_report env (manifest_digest manifest)
        = ApiOk (Some report)
      ∧ features_for (fetch_vuln_severity env) report = Ok features
      ∧ info = {| si_Layer :=
                    {| layer_Name := manifest_hash report;
                       layer_ParentName := "";
                       layer_NamespaceName := "";
                       layer_IndexedByVersion := 4;
                       layer_Features := features |} |}.
Proof.
  unfold load_security_information. split.
  - destruct manifest_or_legacy_image as [manifest|]; [|discriminate].
    erewrite bind_ok by reflexivity.
    destruct (manifestsecuritystatus_set manifest (status_table w))
      as [|status rows] eqn:Hrows; [discriminate|].
    destruct (index_status status) eqn:Hstatus; try discriminate.
    destruct (secscan_vulnerability_report env (manifest_digest manifest))
      as [[report|]|msg] eqn:Hreport; try discriminate.
    rewrite bind_run. unfold lift.
    destruct (features_for (fetch_vuln_severity env) report) as [features|e] eqn:Hf;
      [|discriminate].
    intros [= <-]. exists manifest, status, rows, report, features. auto 10.
  - intros (manifest & status & rows & report & features
            & -> & Hrows & Hstatus & Hreport & Hf & ->).
    erewrite bind_ok by reflexivity.
    rewrite Hrows, Hstatus, Hreport, bind_run. unfold lift. rewrite Hf. reflexivity.
Qed.

End Candidates.

(** ** Notifications *)

Lemma process_notification_page_cons (notification_data : NotificationData)
    (page_result : list NotificationData) :
  (added notification_data →
     ∃ u, process_notification_page (notification_data :: page_result)
          = u :: process_notification_page page_result
          ∧ ManifestDigest u = notified_manifest (nd_entry notification_data)
          ∧ nv_Name (updated_Vulnerability u)
            = nv_name (nd_vulnerability notification_data)
          ∧ nv_FixedBy (updated_Vulnerability u)
            = nv_fixed_in_version (nd_vulnerability notification_data)
          ∧ nv_NamespaceName (updated_Vulnerability u)
            = nv_package (nd_vulnerability notification_data)
              ≫= notified_package_name)
  ∧ (¬ added notification_data →
     process_notification_page (notification_data :: page_result)
     = process_notification_page page_result).
Proof.
  unfold added. simpl.
  destruct (String.eqb_spec (reason (nd_entry notification_data)) "added") as [Heq|Hne];
    simpl; split; intros H; try contradiction.
  - eexists. split; [reflexivity|]. simpl. auto.
  - reflexivity.
Qed.

(** X12: [process_notification_page] yields one update for each entry
    whose reason is "added", in page order, and none for any other entry.
    Each update carries the digest of its entry, and the name, the fix
    version (as it is, "0" included) and the package name of its stanza. *)
Theorem process_notification_page_yields_added
    (page_result : list NotificationData) :
  Forall2 (λ notification_data u,
             ManifestDigest u = notified_manifest (nd_entry notification_data)
             ∧ nv_Name (updated_Vulnerability u)
               = nv_name (nd_vulnerability notification_data)
             ∧ nv_FixedBy (updated_Vulnerability u)
               = nv_fixed_in_version (nd_vulnerability notification_data)
             ∧ nv_NamespaceName (updated_Vulnerability u)
               = nv_package (nd_vulnerability notification_data)
                 ≫= notified_package_name)
    (filter added page_result) (process_notification_page page_result).
Proof.
  induction page_result as [|notification_data page_result IH]; [constructor|].
  destruct (process_notification_page_cons notification_data page_result)
    as [Hadded Hother].
  destruct (decide (added notification_data)) as [Hyes|Hno].
  - rewrite filter_cons_True by exact Hyes.
    destruct (Hadded Hyes) as (u & -> & Hu). constructor; [exact Hu | exact IH].
  - rewrite filter_cons_False by exact Hno. rewrite (Hother Hno). exact IH.
Qed.

(** X13: processing the entries of two pages at once yields the updates
    of the first page followed by those of the second. *)
Theorem process_notification_page_app (page1 page2 : list NotificationData) :
  process_notification_page (page1 ++ page2)
  = process_notification_page page1 ++ process_notification_page page2.
Proof.
  induction page1 as [|notification_data page1 IH]; [reflexivity|].
  simpl. destruct (negb _); [exact IH|]. rewrite IH. reflexivity.
Qed.

(** * The pipeline's claims on the store *)

Section Store.

Variable env : Collaborators.


(** A step raises exactly when it runs a status transaction that the
    store refuses. *)
Lemma attempted_write_fails (thr : Z) (item : Item) (w : World) :
  attempts_write env thr item w →
  db_commits env (manifest_id item.1.1) = false →
  ∃ w', index_candidate env thr item w = (Raise DatabaseError, w')
        ∧ status_table w' = status_table w
        ∧ abort_flags w' = abort_flags w.
Proof.
  destruct item as [[candidate abt] n]. unfold attempts_write. cbn [fst].
  intros [Hlist|[(Hlist & Hnone)|(layers & Hsub & Hanswer)]] Hdb.
  - unfold index_candidate. rewrite Hlist, mark_manifest_unsupported_run, Hdb. eauto.
  - unfold index_candidate. rewrite Hlist.
    destruct Hnone as [Hnone|Hnone]; rewrite Hnone;
      erewrite bind_ok by reflexivity;
      rewrite mark_manifest_unsupported_run, Hdb; eauto.
  - rewrite (index_candidate_submitted env thr candidate abt n w layers Hsub).
    destruct Hanswer as [Hbad|(report & st & Hindexed & Hstate)].
    + rewrite Hbad, bind_run, mark_manifest_unsupported_run, Hdb. eauto.
    + rewrite Hindexed.
      destruct Hstate as [Hstate|Hstate]; rewrite Hstate; simpl;
        rewrite save_status_run, Hdb; eauto.
Qed.

Lemma raise_is_failed_write (thr : Z) (item : Item) (w w' : World) (e : exn) :
  index_candidate env thr item w = (Raise e, w') →
  e = DatabaseError
  ∧ attempts_write env thr item w
  ∧ db_commits env (manifest_id item.1.1) = false.
Proof.
  intros Hstep.
  destruct (index_candidate_raise env thr item w w' e Hstep) as (-> & Hdb & _).
  split; [reflexivity|]. split; [|exact Hdb].
  destruct item as [[candidate abt] n]. unfold attempts_write. cbn [fst] in Hdb |- *.
  destruct (is_manifest_list candidate) eqn:Hlist; [auto|].
  destruct (list_manifest_layers env candidate) as [[|layer layers]|] eqn:Hlayers;
    [auto | | auto].
  right. right. exists (layer :: layers).
  destruct (should_skip_indexing_run thr candidate w) as (skip & Hrun & Hskip).
  unfold index_candidate in Hstep. rewrite Hlist, Hlayers in Hstep.
  erewrite bind_ok in Hstep by exact Hrun.
  destruct skip.
  { erewrite bind_ok in Hstep by reflexivity. discriminate. }
  assert (Hsub : submitted env thr candidate w (layer :: layers)).
  { split; [exact Hlist|]. split; [exact Hlayers|]. split; [discriminate|].
    intros Hclaimed. apply Hskip in Hclaimed. discriminate. }
  split; [exact Hsub|].
  erewrite bind_ok in Hstep by reflexivity.
  destruct (secscan_index env candidate (layer :: layers)) as [report st| |];
    [|auto|discriminate].
  right. exists report, st. split; [reflexivity|].
  destruct (String.eqb_spec (report_state report) Index_Finished) as [Hs|_]; [auto|].
  destruct (String.eqb_spec (report_state report) Index_Error) as [Hs|_]; [auto|].
  discriminate.
Qed.

Lemma index_after (before rest : list Item) (thr : Z) (w w1 : World) :
  _index env before thr w = (Ok tt, w1) →
  _index env (before ++ rest) thr w = _index env rest thr w1.
Proof.
  revert w. induction before as [|item before IH]; intros w.
  - intros [= <-]. reflexivity.
  - rewrite <- app_comm_cons, !index_cons.
    destruct (index_candidate env thr item w) as [[[]|e] w0]; [apply IH | discriminate].
Qed.

(** A pass raises exactly when one of its status transactions fails. *)
Lemma index_raises_iff (iterator : list Item) (thr : Z) (w : World) :
  (_index env iterator thr w).1 = Raise DatabaseError
  ↔ failing_write env thr iterator w.
Proof.
  split.
  - revert w. induction iterator as [|item rest IH]; intros w; [discriminate|].
    rewrite index_cons.
    destruct (index_candidate env thr item w) as [[[]|e] w0] eqn:Hstep.
    + intros Hrest. destruct (IH w0 Hrest) as (before & item' & after & w1
                                                & -> & Hbefore & Hwrite & Hdb).
      exists (item :: before), item', after, w1. repeat split; auto.
      rewrite index_cons, Hstep. exact Hbefore.
    + intros _. destruct (raise_is_failed_write _ _ _ _ _ Hstep) as (_ & Hwrite & Hdb).
      exists [], item, rest, w. auto.
  - intros (before & item & after & w1 & -> & Hbefore & Hwrite & Hdb).
    rewrite (index_after _ _ _ _ _ Hbefore), index_cons.
    destruct (attempted_write_fails thr item w1 Hwrite Hdb) as (w' & -> & _).
    reflexivity.
Qed.

(** C4, as amended: when a status transaction fails for a candidate in the
    course of a pass, the database error reaches the caller of the pass
    and the pass ends there: the status table and the abort events are as
    the candidates before it left them, and the candidates after it are not
    looked at, whichever they are. *)
Theorem index_failed_write_ends_pass
    (thr : Z) (before : list Item) (item : Item) (w w1 : World) :
  _index env before thr w = (Ok tt, w1) →
  attempts_write env thr item w1 →
  db_commits env (manifest_id item.1.1) = false →
  ∃ w', (∀ after, _index env (before ++ item :: after) thr w
                  = (Raise DatabaseError, w'))
        ∧ status_table w' = status_table w1
        ∧ abort_flags w' = abort_flags w1.
Proof.
  intros Hbefore Hwrite Hdb.
  destruct (attempted_write_fails thr item w1 Hwrite Hdb) as (w' & Hstep & Htable & Hflags).
  exists w'. split; [|auto].
  intros after. rewrite (index_after _ _ _ _ _ Hbefore), index_cons, Hstep.
  reflexivity.
Qed.

(** The threshold is a date, or the date arithmetic overflows. *)
Lemma config_reindex_threshold_cases :
  (∃ thr, config_reindex_threshold env = Ok thr)
  ∨ config_reindex_threshold env = Raise OverflowError.
Proof.
  unfold config_reindex_threshold, timedelta, datetime_sub.
  destruct (_ <? _); [right; reflexivity|]. simpl.
  destruct (_ || _); [right; reflexivity | left; eauto].
Qed.

Lemma perform_indexing_pass (start_token : option ScanToken)
    (batch_size : option Z) (w : World) (indexer_state : IndexerState)
    (thr max_id start_index : Z) :
  secscan_state env = ApiOk indexer_state →
  config_reindex_threshold env = Ok thr →
  scalar_max (manifest_ids env) = Some max_id →
  start_index_of env start_token = Some start_index →
  start_index ≤ max_id →
  perform_indexing env start_token batch_size w =
  match _index env
          (_get_manifest_iterator env indexer_state start_index max_id
             (config_batch_size env batch_size) (Some thr)) thr w with
  | (Ok _, w') => (Ok (Some {| min_id := max_id + 1 |}), w')
  | (Raise e, w') => (Raise e, w')
  end.
Proof.
  unfold perform_indexing, start_index_of. intros -> Hthr -> Hstart Hle.
  rewrite bind_run. unfold lift. rewrite Hthr, Hstart.
  replace (start_index >? max_id) with false
    by (symmetry; rewrite Z.gtb_ltb; apply Z.ltb_ge; lia).
  rewrite bind_run. destruct (_index env _ thr w) as [[[]|e] w']; reflexivity.
Qed.

(** C3, as amended: [perform_indexing] returns no token exactly when the
    engine's [state()] call fails, or the reindex threshold can be computed
    and the identifier range is empty or inverted. When the engine answers
    and the configured threshold overflows the date arithmetic,
    [OverflowError] is raised. In every other case a pass is made: if one of
    its status transactions fails, the database error reaches the caller
    and nothing is returned; if none fails, the token [max_id + 1] is
    returned. *)
Theorem perform_indexing_outcomes
    (start_token : option ScanToken) (batch_size : option Z) (w : World) :
  let result := (perform_indexing env start_token batch_size w).1 in
  (result = Ok None
   ↔ state_call_fails env
     ∨ ((∃ thr, config_reindex_threshold env = Ok thr)
        ∧ range_empty_or_inverted env start_token))
  ∧ (¬ state_call_fails env →
     ¬ (∃ thr, config_reindex_threshold env = Ok thr) →
     result = Raise OverflowError)
  ∧ (¬ state_call_fails env →
     ¬ range_empty_or_inverted env start_token →
     ∀ thr, config_reindex_threshold env = Ok thr →
       ∃ indexer_state max_id start_index,
         secscan_state env = ApiOk indexer_state
         ∧ scalar_max (manifest_ids env) = Some max_id
         ∧ start_index_of env start_token = Some start_index
         ∧ start_index ≤ max_id
         ∧ let iterator :=
             _get_manifest_iterator env indexer_state start_index max_id
               (config_batch_size env batch_size) (Some thr) in
           (failing_write env thr iterator w → result = Raise DatabaseError)
           ∧ (¬ failing_write env thr iterator w →
              result = Ok (Some {| min_id := max_id + 1 |}))).
Proof.
  intros result. subst result.
  destruct (state_call_fails_dec env) as [Hfail|(indexer_state & Hstate)].
  { pose proof Hfail as (msg & Hmsg). unfold perform_indexing. rewrite Hmsg.
    split; [|split]; [split; auto | tauto | tauto]. }
  assert (Hanswers : ¬ state_call_fails env).
  { intros (msg & Hmsg). congruence. }
  destruct config_reindex_threshold_cases as [(thr & Hthr)|Hthr]; rewrite Hthr.
  2: { assert (Hresult : (perform_indexing env start_token batch_size w).1
                         = Raise OverflowError).
       { unfold perform_indexing. rewrite Hstate, bind_run. unfold lift.
         rewrite Hthr. reflexivity. }
       rewrite Hresult. split; [|split].
       - split; [discriminate|]. intros [?|[(thr & ?) _]]; [tauto | discriminate].
       - reflexivity.
       - intros _ _ thr ?. discriminate. }
  pose proof (range_empty_or_inverted_spec env start_token) as Hrange.
  fold (start_index_of env start_token) in Hrange.
  destruct (scalar_max (manifest_ids env)) as [max_id|] eqn:Hmax.
  2: { assert (Hresult : perform_indexing env start_token batch_size w = (Ok None, w)).
       { unfold perform_indexing. rewrite Hstate, bind_run. unfold lift.
         rewrite Hthr, Hmax. reflexivity. }
       rewrite Hresult. split; [|split].
       - split; [|reflexivity]. intros _. right. split; [eauto | tauto].
       - intros _ Hno. exfalso. apply Hno. eauto.
       - tauto. }
  destruct (start_index_of env start_token) as [start_index|] eqn:Hstart.
  2: { assert (Hresult : perform_indexing env start_token batch_size w = (Ok None, w)).
       { unfold perform_indexing. fold (start_index_of env start_token).
         rewrite Hstate, bind_run. unfold lift. rewrite Hthr, Hmax, Hstart.
         reflexivity. }
       rewrite Hresult. split; [|split].
       - split; [|reflexivity]. intros _. right. split; [eauto | tauto].
       - intros _ Hno. exfalso. apply Hno. eauto.
       - tauto. }
  destruct (start_index >? max_id) eqn:Hcmp.
  { assert (Hresult : perform_indexing env start_token batch_size w = (Ok None, w)).
    { unfold perform_indexing. fold (start_index_of env start_token).
      rewrite Hstate, bind_run. unfold lift. rewrite Hthr, Hmax, Hstart, Hcmp.
      reflexivity. }
    rewrite Hresult. split; [|split].
    - split; [|reflexivity]. intros _. right. split; [eauto | tauto].
    - intros _ Hno. exfalso. apply Hno. eauto.
    - tauto. }
  assert (Hle : start_index ≤ max_id).
  { rewrite Z.gtb_ltb in Hcmp. apply Z.ltb_ge in Hcmp. lia. }
  assert (Hgood : ¬ range_empty_or_inverted env start_token).
  { rewrite Hrange. discriminate. }
  rewrite (perform_indexing_pass start_token batch_size w indexer_state thr max_id
             start_index Hstate Hthr Hmax Hstart Hle).
  set (iterator := _get_manifest_iterator env indexer_state start_index max_id
                     (config_batch_size env batch_size) (Some thr)).
  pose proof (index_raises_iff iterator thr w) as Hraises.
  destruct (index_run env iterator thr w) as (w' & [Hrun|Hrun]);
    rewrite Hrun in Hraises |- *; simpl in Hraises |- *.
  - split; [|split].
    + split; [discriminate|]. intros [?|[_ ?]]; tauto.
    + intros _ Hno. exfalso. apply Hno. eauto.
    + intros _ _ thr' [= <-]. exists indexer_state, max_id, start_index.
      repeat split; auto. intros Hfailing. apply Hraises in Hfailing. discriminate.
  - split; [|split].
    + split; [discriminate|]. intros [?|[_ ?]]; tauto.
    + intros _ Hno. exfalso. apply Hno. eauto.
    + intros _ _ thr' [= <-]. exists indexer_state, max_id, start_index.
      repeat split; auto. intros Hnone. exfalso. apply Hnone, Hraises. reflexivity.
Qed.

(** C10, as amended: over an empty [Manifest] table the maximum-identifier
    query yields nothing, and [perform_indexing_recent_manifests], when the
    engine answers [state()] and the reindex threshold can be computed,
    raises [TypeError] at the trailing window where [perform_indexing]
    returns "nothing to do"; when [state()] fails it returns [None] before
    the query, and when the engine answers and the threshold overflows it
    raises [OverflowError].
    With one manifest or more the [TypeError] cannot occur. *)
Theorem recent_manifests_on_empty_store (batch_size : option Z) (w : World) :
  (manifest_ids env = [] →
     scalar_max (manifest_ids env) = None
     ∧ (state_call_fails env →
        perform_indexing_recent_manifests env batch_size w = (Ok None, w))
     ∧ (¬ state_call_fails env →
        ¬ (∃ thr, config_reindex_threshold env = Ok thr) →
        perform_indexing_recent_manifests env batch_size w = (Raise OverflowError, w))
     ∧ (¬ state_call_fails env →
        (∃ thr, config_reindex_threshold env = Ok thr) →
        perform_indexing_recent_manifests env batch_size w = (Raise TypeError, w)
        ∧ perform_indexing env None batch_size w = (Ok None, w)))
  ∧ (manifest_ids env ≠ [] →
     (perform_indexing_recent_manifests env batch_size w).1 ≠ Raise TypeError).
Proof.
  unfold perform_indexing_recent_manifests, perform_indexing.
  destruct (state_call_fails_dec env) as [Hfail|(indexer_state & Hstate)].
  { pose proof Hfail as (msg & Hmsg). rewrite Hmsg. split.
    - intros ->. repeat split; tauto.
    - discriminate. }
  assert (Hanswers : ¬ state_call_fails env).
  { intros (msg & Hmsg). congruence. }
  rewrite Hstate, !bind_run. unfold lift. split.
  - intros ->. split; [reflexivity|]. split; [tauto|]. split.
    + intros _ Hno. destruct config_reindex_threshold_cases as [Hthr| ->].
      * tauto.
      * reflexivity.
    + intros _ (thr & ->). split; reflexivity.
  - intros Hne. destruct config_reindex_threshold_cases as [(thr & ->)| ->].
    + destruct (manifest_ids env) as [|x l]; [congruence|]. simpl.
      rewrite bind_run.
      match goal with
      | |- context [_index env ?it ?thr w] =>
          destruct (index_run env it thr w) as (w' & [H|H]); rewrite H
      end; simpl; discriminate.
    + discriminate.
Qed.

End Store.

(** * Further properties of the normalizer *)

Lemma collect_pkg_vulns_resolves (report : VulnerabilityReport) (pkg : Package)
    (ids : list string) (dedupe_vulns dedupe_vulns' : gmap string bool)
    (acc pkg_vulns : list VulnerabilityJson) :
  collect_pkg_vulns report pkg ids dedupe_vulns acc = Ok (pkg_vulns, dedupe_vulns') →
  Forall (λ id, is_Some (vulnerabilities report !! id)) ids.
Proof.
  revert dedupe_vulns acc. induction ids as [|id ids IH]; intros d acc; simpl.
  - constructor.
  - destruct (vulnerabilities report !! id) as [vuln|] eqn:Hid; [|discriminate].
    intros Hrec. constructor; [eauto | eapply IH, Hrec].
Qed.

Lemma enrichments_for_dom (report : VulnerabilityReport) (src : string)
    (doc : gmap string (list EnrichmentEntry))
    (docs : list (gmap string (list EnrichmentEntry)))
    (others : list (string * list (gmap string (list EnrichmentEntry))))
    (enr : gmap string EnrichmentEntry) :
  enrichments report = Some ((src, doc :: docs) :: others) →
  enrichments_for report = Ok enr →
  ∀ id, enr !! id = doc !! id ≫= λ cands, head (sorted_by_score_reverse cands).
Proof.
  unfold enrichments_for. intros ->.
  destruct (decide (map_Forall (λ _ val, val ≠ []) doc)); [|discriminate].
  intros [= <-] id. apply lookup_omap.
Qed.

Section Outputs.

Variable fetch_vuln_severity :
  VulnerabilityJson → gmap string EnrichmentEntry → string.

(** Every output entry is the normalization of a kept input entry. *)
Lemma features_for_outputs (report : VulnerabilityReport) (features : list Feature)
    (o : string * string * Vulnerability) :
  features_for fetch_vuln_severity report = Ok features →
  o ∈ out_entries features →
  ∃ entry enr,
    entry ∈ first_occurrences ∅ (encountered report)
    ∧ entry ∈ encountered report
    ∧ enrichments_for report = Ok enr
    ∧ normalized_from fetch_vuln_severity enr entry o.
Proof.
  intros Hrun Ho.
  assert (Hpkgs : packages report ≠ []).
  { intros Hnil. unfold features_for in Hrun. rewrite Hnil in Hrun.
    injection Hrun as <-. inversion Ho. }
  destruct (features_for_enrichments _ _ _ Hrun Hpkgs) as (enr & Hok).
  pose proof (features_for_spec _ _ _ enr Hrun (λ _, Hok)) as Hall.
  apply list_elem_of_lookup in Ho. destruct Ho as (k & Hk).
  destruct (Forall2_lookup_r _ _ _ _ _ Hall Hk) as (entry & Hentry & Hnorm).
  apply list_elem_of_lookup_2 in Hentry.
  exists entry, enr. repeat split; auto; try apply Hnorm.
  apply first_occurrences_lookup in Hentry. destruct Hentry as (i & Hi & _).
  eapply list_elem_of_lookup_2, Hi.
Qed.

Lemma features_loop_features (report : VulnerabilityReport)
    (pkgs : list (string * Package)) (dedupe_vulns : gmap string bool)
    (acc features : list Feature) :
  features_loop fetch_vuln_severity report pkgs dedupe_vulns acc = Ok features →
  ∃ news, features = acc ++ news
          ∧ Forall2 (feature_of report) pkgs news
          ∧ Forall (λ p, ∀ id,
                      id ∈ default [] (package_vulnerabilities report !! p.1) →
                      is_Some (vulnerabilities report !! id)) pkgs.
Proof.
  revert dedupe_vulns acc.
  induction pkgs as [|[pkg_id pkg] pkgs IH]; intros d acc; simpl.
  - intros [= <-]. exists []. rewrite app_nil_r. repeat constructor.
  - unfold pkg_env_for.
    destruct (environments report !! pkg_id) as [[|env envs]|] eqn:Henv;
      simpl; try discriminate.
    destruct (collect_pkg_vulns report pkg _ d []) as [[pkg_vulns d']|] eqn:Hcollect;
      simpl; [|discriminate].
    destruct (enrichments_for report) as [enr|]; simpl; [|discriminate].
    destruct (mapM _ pkg_vulns) as [vulns|]; simpl; [|discriminate].
    intros Hrun. apply IH in Hrun. destruct Hrun as (news & -> & Hnews & Hids).
    eexists. split; [rewrite <- app_assoc; reflexivity|]. split.
    + constructor; [|exact Hnews]. repeat split. simpl. eauto.
    + constructor; [|exact Hids]. simpl.
      apply collect_pkg_vulns_resolves in Hcollect.
      intros id Hid. eapply Forall_forall in Hcollect; eauto.
Qed.

Lemma features_loop_returns (report : VulnerabilityReport)
    (pkgs : list (string * Package)) (dedupe_vulns : gmap string bool)
    (acc : list Feature) :
  all_true dedupe_vulns →
  (∀ pkg_id pkg, (pkg_id, pkg) ∈ pkgs →
     (∃ env envs, environments report !! pkg_id = Some (env :: envs))
     ∧ ∀ id, id ∈ default [] (package_vulnerabilities report !! pkg_id) →
             is_Some (vulnerabilities report !! id)) →
  (pkgs ≠ [] → ∃ enr, enrichments_for report = Ok enr) →
  (∀ entry, entry ∈ first_occurrences (dom dedupe_vulns) (entries_of report pkgs) →
            is_Some (vuln_name entry.2)) →
  ∃ features,
    features_loop fetch_vuln_severity report pkgs dedupe_vulns acc = Ok features.
Proof.
  revert dedupe_vulns acc.
  induction pkgs as [|[pkg_id pkg] pkgs IH]; intros d acc Htrue Hpkgs Henr Hnames.
  - simpl. eauto.
  - destruct (Henr ltac:(discriminate)) as (enr & Hok).
    destruct (Hpkgs pkg_id pkg ltac:(left)) as ((env & envs & Henv) & Hids).
    rewrite entries_of_cons, first_occurrences_app in Hnames.
    simpl features_loop. unfold pkg_env_for. rewrite Henv. simpl.
    destruct (collect_pkg_vulns_total report pkg
                (default [] (package_vulnerabilities report !! pkg_id)) d [])
      as (pkg_vulns & d' & Hcollect).
    { apply Forall_forall. exact Hids. }
    rewrite Hcollect. simpl. rewrite Hok. simpl.
    destruct (collect_pkg_vulns_spec _ _ _ _ _ _ _ Htrue Hcollect)
      as (Hvs & _ & Hdom & Htrue').
    destruct (mapM_total (to_vulnerability fetch_vuln_severity enr) pkg_vulns)
      as (vulns & Hvulns).
    { apply Forall_forall. intros vuln Hvuln. rewrite Hvs in Hvuln. simpl in Hvuln.
      apply list_elem_of_fmap in Hvuln. destruct Hvuln as (entry & -> & Hentry).
      destruct (Hnames entry) as (name & Hname);
        [apply elem_of_app; left; exact Hentry|].
      unfold to_vulnerability. rewrite Hname. eauto. }
    rewrite Hvulns. simpl. apply IH; [exact Htrue'| | |].
    + intros pkg_id' pkg' Hin. apply (Hpkgs pkg_id' pkg'). right. exact Hin.
    + intros _. eauto.
    + intros entry Hentry. apply Hnames, elem_of_app. right.
      rewrite <- Hdom. exact Hentry.
Qed.

(** X14: the normalizer returns a result exactly on the readable reports:
    every package has a non-empty environment list, every vulnerability id
    listed for a package resolves, the enrichments can be read when there
    is a package, and every vulnerability that is kept has a name. A
    dropped duplicate needs no name, and a report without packages needs
    no readable enrichments. *)
Theorem features_for_returns_iff (report : VulnerabilityReport) :
  (∃ features, features_for fetch_vuln_severity report = Ok features)
  ↔ readable report.
Proof.
  split.
  - intros (features & Hrun). split; [|split].
    + intros pkg_id pkg Hin.
      pose proof Hrun as Hloop. unfold features_for in Hloop.
      apply features_loop_features in Hloop.
      destruct Hloop as (news & _ & Hnews & Hids).
      apply list_elem_of_lookup in Hin. destruct Hin as (i & Hi).
      split.
      * destruct (Forall2_lookup_l _ _ _ _ _ Hnews Hi)
          as (f & _ & _ & _ & _ & _ & env & envs & Henv & _). eauto.
      * eapply Forall_lookup_1 in Hids; [|exact Hi]. exact Hids.
    + intros Hpkgs. eapply features_for_enrichments; eauto.
    + intros entry Hentry.
      destruct (decide (packages report = [])) as [Hnil|Hpkgs].
      { unfold encountered in Hentry. rewrite Hnil in Hentry. inversion Hentry. }
      destruct (features_for_enrichments _ _ _ Hrun Hpkgs) as (enr & Hok).
      pose proof (features_for_spec _ _ _ enr Hrun (λ _, Hok)) as Hall.
      apply list_elem_of_lookup in Hentry. destruct Hentry as (k & Hk).
      destruct (Forall2_lookup_l _ _ _ _ _ Hall Hk) as (o & _ & _ & _ & Hout).
      apply to_vulnerability_Ok in Hout. destruct Hout as (Hname & _). eauto.
  - intros (Hpkgs & Henr & Hnames).
    apply features_loop_returns; [|exact Hpkgs|exact Henr|].
    + intros key b. rewrite lookup_empty. discriminate.
    + rewrite dom_empty_L. exact Hnames.
Qed.

(** X15: the output has one feature for each package of the report, in
    the order of the packages, also for a package without vulnerabilities:
    it carries the package's name and version, empty version format and
    namespace, and the layer its first environment was introduced in. *)
Theorem features_for_one_feature_per_package (report : VulnerabilityReport)
    (features : list Feature) :
  features_for fetch_vuln_severity report = Ok features →
  Forall2 (feature_of report) (packages report) features.
Proof.
  unfold features_for. intros Hrun. apply features_loop_features in Hrun.
  destruct Hrun as (news & -> & Hnews & _). exact Hnews.
Qed.

(** X16: the vulnerability entries of the output are, in order, those of
    the first stanza met with each key, and each carries the fix version of
    that very stanza as it is, but for "0", which becomes the empty string;
    so none is fixed by "0". *)
Theorem features_for_fixed_by (report : VulnerabilityReport)
    (features : list Feature) :
  features_for fetch_vuln_severity report = Ok features →
  Forall2 (λ (entry : Package * VulnerabilityJson)
             (o : string * string * Vulnerability),
             out_triple o = entry_triple entry
             ∧ (fixed_in_version entry.2 = "0" → FixedBy o.2 = "")
             ∧ (fixed_in_version entry.2 ≠ "0" →
                FixedBy o.2 = fixed_in_version entry.2)
             ∧ FixedBy o.2 ≠ "0")
    (first_occurrences ∅ (encountered report)) (out_entries features).
Proof.
  intros Hrun.
  assert (Henr : ∃ enr, packages report ≠ [] → enrichments_for report = Ok enr).
  { destruct (decide (packages report = [])) as [Hnil|Hpkgs].
    - exists ∅. tauto.
    - destruct (features_for_enrichments _ _ _ Hrun Hpkgs) as (enr & Hok). eauto. }
  destruct Henr as (enr & Henr).
  eapply Forall2_impl; [eapply features_for_spec; eauto|].
  intros entry o Hnorm. cbn beta.
  pose proof (normalized_from_triple _ _ _ _ Hnorm) as Htriple.
  destruct Hnorm as (_ & _ & Hout). apply to_vulnerability_Ok in Hout.
  destruct Hout as (_ & Hfixed & _). rewrite Hfixed.
  split; [exact Htriple|].
  destruct (String.eqb_spec (fixed_in_version entry.2) "0") as [Heq|Hne].
  - split; [reflexivity|]. split; [congruence | discriminate].
  - split; [congruence|]. split; [reflexivity | exact Hne].
Qed.

(** X17: on a report without enrichments (the key absent, or an empty
    dictionary) every vulnerability of the output has the empty vector
    string and no score. *)
Theorem features_for_without_enrichments (report : VulnerabilityReport)
    (features : list Feature) (o : string * string * Vulnerability) :
  enrichments report = None ∨ enrichments report = Some [] →
  features_for fetch_vuln_severity report = Ok features →
  o ∈ out_entries features →
  cvss_of o.2 = {| Vectors := ""; Score := None |}.
Proof.
  intros Hnone Hrun Ho.
  destruct (features_for_outputs _ _ _ Hrun Ho) as (entry & enr & _ & _ & Hok & Hnorm).
  destruct Hnorm as (_ & _ & Hout). apply to_vulnerability_Ok in Hout.
  destruct Hout as (_ & _ & Hcvss). rewrite Hcvss.
  assert (enr = ∅) as ->.
  { unfold enrichments_for in Hok. destruct Hnone as [H|H]; rewrite H in Hok;
      congruence. }
  rewrite lookup_empty. reflexivity.
Qed.

(** X19: no two vulnerability entries of the output have the same
    concatenated key, and every entry met in the report has its key in the
    output, on the entry that is the normalization of the first entry met
    with that key: its package name and version, and its stanza run through
    [to_vulnerability]. *)
Theorem features_for_one_entry_per_key (report : VulnerabilityReport)
    (features : list Feature) (enr : gmap string EnrichmentEntry) :
  features_for fetch_vuln_severity report = Ok features →
  (packages report ≠ [] → enrichments_for report = Ok enr) →
  NoDup (out_key <$> out_entries features)
  ∧ ∀ entry, entry ∈ encountered report →
      ∃ first i o,
        encountered report !! i = Some first
        ∧ entry_key first = entry_key entry
        ∧ (∀ j e, (j < i)%nat → encountered report !! j = Some e →
                  entry_key e ≠ entry_key entry)
        ∧ o ∈ out_entries features
        ∧ normalized_from fetch_vuln_severity enr first o
        ∧ out_triple o = entry_triple first
        ∧ out_key o = entry_key entry.
Proof.
  intros Hrun Henr.
  destruct (features_for_dedupes_by_key _ _ _ enr Hrun Henr)
    as (kept & Hall & Hnodup & Hcomplete & Hkept).
  pose proof (normalized_triples _ _ _ _ Hall) as Htriples.
  split.
  - unfold out_key. rewrite (list_fmap_compose out_triple key_of_triple), Htriples.
    rewrite <- list_fmap_compose. exact Hnodup.
  - intros entry Hin.
    destruct (Hcomplete entry Hin) as (first & Hfirst & Hkey).
    pose proof Hfirst as Hidx. apply Hkept in Hidx. destruct Hidx as (i & Hi & Hearlier).
    apply list_elem_of_lookup in Hfirst. destruct Hfirst as (k & Hk).
    destruct (Forall2_lookup_l _ _ _ _ _ Hall Hk) as (o & Ho & Hnorm).
    pose proof (normalized_from_triple _ _ _ _ Hnorm) as Htriple.
    exists first, i, o. split; [exact Hi|]. split; [exact Hkey|]. split.
    { intros j e Hj He. rewrite <- Hkey. eapply Hearlier; eauto. }
    split; [eapply list_elem_of_lookup_2, Ho|]. split; [exact Hnorm|].
    split; [exact Htriple|].
    unfold out_key. rewrite Htriple. exact Hkey.
Qed.

End Outputs.

(** X18: with enrichments present, reading them fails exactly when the
    first source lists no document or the first document of the first
    source has a vulnerability id with no candidates, and then with
    [IndexError]; otherwise the result has exactly the vulnerability ids of
    that document, each with one of its own candidates. The other documents
    and sources are never read. *)
Theorem enrichments_for_first_document (report : VulnerabilityReport)
    (src : string) (docs : list (gmap string (list EnrichmentEntry)))
    (others : list (string * list (gmap string (list EnrichmentEntry)))) :
  enrichments report = Some ((src, docs) :: others) →
  (enrichments_for report = Raise IndexError
   ↔ docs = [] ∨ ∃ doc rest id, docs = doc :: rest ∧ doc !! id = Some [])
  ∧ (enrichments_for report = Raise IndexError
     ∨ ∃ enr doc rest,
         enrichments_for report = Ok enr
         ∧ docs = doc :: rest
         ∧ dom enr = dom doc
         ∧ ∀ id e, enr !! id = Some e →
                   ∃ cands, doc !! id = Some cands ∧ e ∈ cands).
Proof.
  intros Henr. unfold enrichments_for. rewrite Henr.
  destruct docs as [|doc rest].
  { split; [|left; reflexivity]. split; auto. }
  destruct (decide (map_Forall (λ _ val, val ≠ []) doc)) as [Hfull|Hnot].
  - split.
    + split; [discriminate|].
      intros [?|(doc' & rest' & id & [= <- <-] & Hid)]; [discriminate|].
      exfalso. eapply Hfull; eauto.
    + right. exists (omap (λ val, head (sorted_by_score_reverse val)) doc), doc, rest.
      split; [reflexivity|]. split; [reflexivity|].
      assert (Hhead : ∀ id e,
                omap (λ val, head (sorted_by_score_reverse val)) doc !! id = Some e →
                ∃ cands, doc !! id = Some cands ∧ e ∈ cands).
      { intros id e. rewrite lookup_omap.
        destruct (doc !! id) as [cands|]; [|discriminate]. simpl. intros He.
        pose proof (head_sorted_by_score_reverse cands) as Hspec. rewrite He in Hspec.
        destruct Hspec as (i & Hi & _). exists cands. split; [reflexivity|].
        eapply list_elem_of_lookup_2, Hi. }
      split; [|exact Hhead].
      apply set_eq. intros id. rewrite !elem_of_dom. split.
      * intros (e & He). destruct (Hhead id e He) as (cands & -> & _). eauto.
      * intros (cands & Hcands). rewrite lookup_omap, Hcands. simpl.
        pose proof (head_sorted_by_score_reverse cands) as Hspec.
        destruct (head (sorted_by_score_reverse cands)) as [e|]; [eauto|].
        exfalso. eapply Hfull; eauto.
  - split; [|left; reflexivity]. split; [|reflexivity]. intros _. right.
    apply map_not_Forall in Hnot; [|apply _].
    destruct Hnot as (id & cands & Hid & Hempty).
    exists doc, rest, id. repeat split.
    destruct cands; [exact Hid|]. exfalso. apply Hempty. discriminate.
Qed.

(** * The further properties on concrete inputs *)

(** X1, on the example window. *)
Lemma index_touches_only_witness :
  touches_only (manifests_of example_window) (abts_of example_window) empty_world
    (_index working_env example_window 50000 empty_world).2.
Proof. apply (index_touches_only working_env example_window 50000 empty_world). Defined.

(** X2, witness: the manifest list 1, already marked by another worker. *)
Lemma index_unindexable_marks_unsupported_witness :
  ∃ w', index_candidate working_env 50000 (manifest_list 1, 3%nat, 0%nat)
          unsupported_world = (Ok tt, w')
        ∧ rows_of (manifest_list 1) (status_table w')
          = [unsupported_status_row working_env (manifest_list 1)]
        ∧ abort_flags w' = abort_flags unsupported_world
        ∧ (log w' = log unsupported_world
           ∨ log w' = log unsupported_world ++ [warning_no_layers 1]).
Proof.
  apply (index_unindexable_marks_unsupported working_env 50000 (manifest_list 1)
           3%nat 0%nat unsupported_world).
  - left. reflexivity.
  - reflexivity.
Defined.

Lemma plain_manifest_submitted (env : Collaborators) (id : Z) :
  list_manifest_layers env (plain_manifest id) = Some ["sha256:1f"] →
  submitted env 50000 (plain_manifest id) empty_world ["sha256:1f"].
Proof.
  intros Hlayers. repeat split; [exact Hlayers | discriminate|].
  intros [(status & H & _)|(_ & row & Hin & _)]; [discriminate | inversion Hin].
Qed.

(** X3, witness: the engine fails; the store would refuse manifest 1. *)
Lemma index_request_failure_writes_nothing_witness :
  index_candidate (engine_env IndexRequestFailure [1]) 50000
    (plain_manifest 1, 0%nat, 0%nat) empty_world
  = (Ok tt, {| status_table := status_table empty_world;
               abort_flags := abort_flags empty_world;
               log := log empty_world ++ [debug_indexing 1; exception_api_error] |}).
Proof.
  apply (index_request_failure_writes_nothing (engine_env IndexRequestFailure [1])
           50000 (plain_manifest 1) 0%nat 0%nat empty_world ["sha256:1f"]).
  - apply plain_manifest_submitted. reflexivity.
  - reflexivity.
Defined.

(** X4, witness: the engine rejects the content of manifest 1. *)
Lemma index_invalid_content_marks_unsupported_witness :
  if db_commits (engine_env InvalidContentSent []) (manifest_id (plain_manifest 1))
  then ∃ w', index_candidate (engine_env InvalidContentSent []) 50000
               (plain_manifest 1, 0%nat, 0%nat) empty_world = (Ok tt, w')
             ∧ rows_of (plain_manifest 1) (status_table w')
               = [unsupported_status_row (engine_env InvalidContentSent [])
                    (plain_manifest 1)]
             ∧ abort_flags w' = abort_flags empty_world
             ∧ log w' = log empty_world
                        ++ [debug_indexing (manifest_id (plain_manifest 1));
                            exception_invalid_content]
  else index_candidate (engine_env InvalidContentSent []) 50000
         (plain_manifest 1, 0%nat, 0%nat) empty_world
       = (Raise DatabaseError,
          logged (debug_indexing (manifest_id (plain_manifest 1))) empty_world).
Proof.
  apply (index_invalid_content_marks_unsupported (engine_env InvalidContentSent [])
           50000 (plain_manifest 1) 0%nat 0%nat empty_world ["sha256:1f"]).
  - apply plain_manifest_submitted. reflexivity.
  - reflexivity.
Defined.

(** X6, witness: manifest 1 is indexed, then met again. *)
Lemma index_again_is_preempted_witness :
  index_candidate working_env 50000 (plain_manifest 1, 0%nat, 1%nat)
    (indexed_world (plain_manifest 1))
  = (Ok tt,
     {| status_table := status_table (indexed_world (plain_manifest 1));
        abort_flags := {[0%nat]} ∪ abort_flags (indexed_world (plain_manifest 1));
        log := log (indexed_world (plain_manifest 1)) ++ [debug_preempted] |}).
Proof.
  apply (index_again_is_preempted working_env 50000 (plain_manifest 1) 0%nat 1%nat
           empty_world (indexed_world (plain_manifest 1)) ["sha256:1f"]
           finished_report "engine-1").
  - apply plain_manifest_submitted. reflexivity.
  - reflexivity.
  - reflexivity.
  - left. reflexivity.
  - reflexivity.
Defined.

(** X8, witness: the token of the pass over manifests 1 and 2. *)
Lemma perform_indexing_resumes_past_the_end_witness :
  perform_indexing working_env (Some {| min_id := 3 |}) (Some 5) claimed_world
  = (Ok None, claimed_world).
Proof.
  apply (perform_indexing_resumes_past_the_end working_env None None empty_world
           {| min_id := 3 |}).
  vm_compute. reflexivity.
Defined.

(** X9, witness: no manifest at all. *)
Lemma perform_indexing_none_is_untouched_witness :
  (perform_indexing empty_env None None empty_world).2 = empty_world.
Proof.
  apply (perform_indexing_none_is_untouched empty_env None None empty_world).
  reflexivity.
Defined.

Example process_notification_page_example :
  ManifestDigest <$> process_notification_page
    [example_notification "added" "sha256:0a";
     example_notification "removed" "sha256:0b";
     example_notification "added" "sha256:0c"]
  = ["sha256:0a"; "sha256:0c"].
Proof. reflexivity. Qed.

(** A duplicate without a name is dropped before its name is read. *)
Example features_for_nameless_duplicate :
  (λ fs : list Feature, out_triple <$> out_entries fs)
    <$> features_for example_severity nameless_report
  = Ok [("zlib", "1.2", "")].
Proof. vm_compute. reflexivity. Qed.

Lemma features_for_duplicate_features :
  features_for example_severity duplicate_report = Ok duplicate_features.
Proof. vm_compute. reflexivity. Qed.

(** X15, witness: the report with one package. *)
Lemma features_for_one_feature_per_package_witness :
  Forall2 (feature_of duplicate_report) (packages duplicate_report) duplicate_features.
Proof.
  apply (features_for_one_feature_per_package example_severity duplicate_report
           duplicate_features).
  vm_compute. reflexivity.
Defined.

(** X16, witness: CVE-X met twice for one package, fixed in "0" both
    times; the output has the one entry of the first stanza. *)
Lemma features_for_fixed_by_witness :
  Forall2 (λ (entry : Package * VulnerabilityJson)
             (o : string * string * Vulnerability),
             out_triple o = entry_triple entry
             ∧ (fixed_in_version entry.2 = "0" → FixedBy o.2 = "")
             ∧ (fixed_in_version entry.2 ≠ "0" →
                FixedBy o.2 = fixed_in_version entry.2)
             ∧ FixedBy o.2 ≠ "0")
    (first_occurrences ∅ (encountered duplicate_report))
    (out_entries duplicate_features).
Proof.
  apply (features_for_fixed_by example_severity duplicate_report duplicate_features).
  vm_compute. reflexivity.
Defined.

(** X17, witness: the report without enrichments. *)
Lemma features_for_without_enrichments_witness :
  cvss_of duplicate_output.2 = {| Vectors := ""; Score := None |}.
Proof.
  apply (features_for_without_enrichments example_severity duplicate_report
           duplicate_features duplicate_output).
  - left. reflexivity.
  - vm_compute. reflexivity.
  - left.
Defined.

(** X18, witness: the report with two enrichment sources. *)
Lemma enrichments_for_first_document_witness :
  (enrichments_for scored_report = Raise IndexError
   ↔ [({[ "v1" := [{| baseScore := 7.5; vectorString := Some "CVSS:3.1/AV:L" |};
                    {| baseScore := 9.0; vectorString := Some "CVSS:3.1/AV:N" |}] ]}
        : gmap string (list EnrichmentEntry))] = []
     ∨ ∃ doc rest id,
         [({[ "v1" := [{| baseScore := 7.5; vectorString := Some "CVSS:3.1/AV:L" |};
                       {| baseScore := 9.0; vectorString := Some "CVSS:3.1/AV:N" |}] ]}
           : gmap string (list EnrichmentEntry))] = doc :: rest
         ∧ doc !! id = Some [])
  ∧ (enrichments_for scored_report = Raise IndexError
     ∨ ∃ enr doc rest,
         enrichments_for scored_report = Ok enr
         ∧ [({[ "v1" := [{| baseScore := 7.5; vectorString := Some "CVSS:3.1/AV:L" |};
                         {| baseScore := 9.0; vectorString := Some "CVSS:3.1/AV:N" |}] ]}
             : gmap string (list EnrichmentEntry))] = doc :: rest
         ∧ dom enr = dom doc
         ∧ ∀ id e, enr !! id = Some e →
                   ∃ cands, doc !! id = Some cands ∧ e ∈ cands).
Proof.
  eapply (enrichments_for_first_document scored_report "enricher=clair.cvss").
  reflexivity.
Defined.

(** X19, witness: CVE-X met twice for one package. *)
Lemma features_for_one_entry_per_key_witness :
  NoDup (out_key <$> out_entries duplicate_features)
  ∧ ∀ entry, entry ∈ encountered duplicate_report →
      ∃ first i o,
        encountered duplicate_report !! i = Some first
        ∧ entry_key first = entry_key entry
        ∧ (∀ j e, (j < i)%nat → encountered duplicate_report !! j = Some e →
                  entry_key e ≠ entry_key entry)
        ∧ o ∈ out_entries duplicate_features
        ∧ normalized_from example_severity ∅ first o
        ∧ out_triple o = entry_triple first
        ∧ out_key o = entry_key entry.
Proof.
  apply (features_for_one_entry_per_key example_severity duplicate_report
           duplicate_features ∅).
  - vm_compute. reflexivity.
  - reflexivity.
Defined.

(** X20, witness: the same report has no key collision. *)
Lemma features_for_dedupes_by_triple_witness :
  NoDup (out_triple <$> out_entries duplicate_features)
  ∧ (collision_free duplicate_report →
     ∀ entry, entry ∈ encountered duplicate_report →
       ∃ first i o,
         encountered duplicate_report !! i = Some first
         ∧ entry_triple first = entry_triple entry
         ∧ (∀ j e, (j < i)%nat → encountered duplicate_report !! j = Some e →
                   entry_triple e ≠ entry_triple first)
         ∧ o ∈ out_entries duplicate_features
         ∧ normalized_from example_severity ∅ first o
         ∧ out_triple o = entry_triple entry).
Proof.
  apply (features_for_dedupes_by_triple example_severity duplicate_report
           duplicate_features ∅).
  - vm_compute. reflexivity.
  - intros _. reflexivity.
Defined.

(** * The claims on the store, on concrete inputs *)


(** The same on a candidate the query found without a row. *)
Example index_claimed_without_attached_row :
  status_record_claims 50000 (plain_manifest 1) claimed_world
  ∧ snapshot_current (plain_manifest 1) claimed_world
  ∧ index_candidate working_env 50000 (plain_manifest 1, 3%nat, 0%nat) claimed_world
    = abt_set 3%nat (logged debug_preempted claimed_world).
Proof.
  split; [|split].
  - right. split; [reflexivity|]. exists fresh_row. split; [left | reflexivity].
  - intros attached [=].
  - reflexivity.
Qed.

(** Outside the amended C1: the candidate carries a row older than the one
    the table holds. [should_skip_indexing] compares the carried row only,
    where its docstring speaks of a manifest that references a status and
    its other path reads the table: the manifest is submitted and its row
    rewritten. *)
Example index_outdated_snapshot_is_resubmitted :
  status_record_claims 50000 (stale_manifest 1) claimed_world
  ∧ ¬ snapshot_current (stale_manifest 1) claimed_world
  ∧ (index_candidate working_env 50000 (stale_manifest 1, 3%nat, 0%nat)
       claimed_world).1 = Ok tt
  ∧ log (index_candidate working_env 50000 (stale_manifest 1, 3%nat, 0%nat)
           claimed_world).2 = [debug_indexing 1]
  ∧ last_indexed <$> status_table (index_candidate working_env 50000
                                     (stale_manifest 1, 3%nat, 0%nat)
                                     claimed_world).2 = [100000].
Proof.
  split; [|split; [|split; [|split]]].
  - left. exists fresh_row. split; [left|]. split; [reflexivity|].
    vm_compute. discriminate.
  - intros Hcurrent.
    specialize (Hcurrent _ eq_refl fresh_row (list_elem_of_here _ _) eq_refl).
    discriminate.
  - reflexivity.
  - reflexivity.
  - reflexivity.
Qed.

(** C3, witness: with the store refusing manifest 1 the pass has a failing
    transaction and the error is what the caller gets. *)
Lemma perform_indexing_outcomes_witness :
  failing_write broken_env 13600 example_window empty_world
  ∧ (perform_indexing broken_env None None empty_world).1 = Raise DatabaseError.
Proof.
  assert (Hfailing : failing_write broken_env 13600 example_window empty_world).
  { exists [], (plain_manifest 1, 0%nat, 1%nat), [(plain_manifest 2, 0%nat, 0%nat)],
      empty_world.
    split; [reflexivity|]. split; [reflexivity|]. split; [|reflexivity].
    right. right. exists ["sha256:1f"].
    split.
    { split; [reflexivity|]. split; [reflexivity|]. split; [discriminate|].
      intros [(status & H & _)|(_ & row & Hin & _)]; [discriminate | inversion Hin]. }
    right. exists finished_report, "engine-1". split; [reflexivity | left; reflexivity]. }
  split; [exact Hfailing|].
  destruct (perform_indexing_outcomes broken_env None None empty_world)
    as (_ & _ & Hpass).
  assert (Hanswers : ¬ state_call_fails broken_env).
  { intros (msg & Hmsg). discriminate. }
  assert (Hrange : ¬ range_empty_or_inverted broken_env None).
  { rewrite range_empty_or_inverted_spec. discriminate. }
  destruct (Hpass Hanswers Hrange 13600 eq_refl)
    as (indexer_state & max_id & start_index & Hstate & Hmax & Hstart & _ & Hraises & _).
  injection Hstate as <-. injection Hmax as <-. injection Hstart as <-.
  apply Hraises. exact Hfailing.
Defined.

(** The same with a working store: no transaction fails and the token is
    what the caller gets. *)
Example perform_indexing_no_failing_write :
  ¬ failing_write working_env 13600 example_window empty_world
  ∧ (perform_indexing working_env None None empty_world).1
    = Ok (Some {| min_id := 3 |}).
Proof.
  split; [|vm_compute; reflexivity].
  intros (before & item & after & w1 & _ & _ & _ & Hdb).
  apply bool_decide_eq_false in Hdb. apply Hdb, not_elem_of_nil.
Qed.

(** A configured threshold beyond what [timedelta] takes. *)
Example perform_indexing_overflows :
  let env := {| secscan_state := secscan_state working_env;
                secscan_index := secscan_index working_env;
                secscan_vulnerability_report := secscan_vulnerability_report working_env;
                secscan_retrieve_notification_page :=
                  secscan_retrieve_notification_page working_env;
                list_manifest_layers := list_manifest_layers working_env;
                fetch_vuln_severity := fetch_vuln_severity working_env;
                manifest_ids := manifest_ids working_env;
                db_commits := db_commits working_env;
                utcnow := utcnow working_env;
                SECURITY_SCANNER_V4_BATCH_SIZE := None;
                SECURITY_SCANNER_V4_REINDEX_THRESHOLD := Some (10 ^ 15);
                yield_random_entries := yield_random_entries working_env;
                int_pow4_log10 := int_pow4_log10 working_env |} in
  perform_indexing env None None empty_world = (Raise OverflowError, empty_world)
  ∧ perform_indexing_recent_manifests env None empty_world
    = (Raise OverflowError, empty_world).
Proof. split; reflexivity. Qed.

(** C4, witness: manifest 1 is indexed, then the status transaction of
    manifest 2 fails; whatever follows in the window is not reached. *)
Lemma index_failed_write_ends_pass_witness :
  ∃ w', (∀ after,
           _index late_broken_env
             ([(plain_manifest 1, 0%nat, 1%nat)]
              ++ (plain_manifest 2, 0%nat, 0%nat) :: after) 50000 empty_world
           = (Raise DatabaseError, w'))
        ∧ status_table w' = status_table (indexed_world (plain_manifest 1))
        ∧ abort_flags w' = abort_flags (indexed_world (plain_manifest 1)).
Proof.
  apply (index_failed_write_ends_pass late_broken_env 50000
           [(plain_manifest 1, 0%nat, 1%nat)] (plain_manifest 2, 0%nat, 0%nat)
           empty_world (indexed_world (plain_manifest 1))).
  - reflexivity.
  - right. right. exists ["sha256:1f"]. split.
    + split; [reflexivity|]. split; [reflexivity|]. split; [discriminate|].
      intros [(status & H & _)|(_ & row & Hin & Hrow)]; [discriminate|].
      apply list_elem_of_singleton in Hin. subst row. discriminate.
    + right. exists finished_report, "engine-1".
      split; [reflexivity | left; reflexivity].
  - reflexivity.
Defined.

(** C10, as stated, fails: with no manifest and an engine that does not
    answer [state()], nothing is raised; the call returns [None] before the
    maximum-identifier query is made. *)
Lemma recent_manifests_offline_returns_none :
  manifest_ids offline_env = []
  ∧ scalar_max (manifest_ids offline_env) = None
  ∧ perform_indexing_recent_manifests offline_env None empty_world
    = (Ok None, empty_world)
  ∧ ∀ e, (perform_indexing_recent_manifests offline_env None empty_world).1
         ≠ Raise e.
Proof. repeat split. discriminate. Qed.

(** C10, witness: an empty [Manifest] table, an engine that answers and
    the default threshold. *)
Lemma recent_manifests_on_empty_store_witness :
  perform_indexing_recent_manifests empty_env None empty_world
  = (Raise TypeError, empty_world)
  ∧ perform_indexing empty_env None None empty_world = (Ok None, empty_world).
Proof.
  destruct (recent_manifests_on_empty_store empty_env None empty_world) as [Hempty _].
  destruct (Hempty eq_refl) as (_ & _ & _ & Hraises).
  apply Hraises.
  - intros (msg & Hmsg). discriminate.
  - exists 13600. reflexivity.
Defined.
